(** * API sonification: the event-to-music mapping pipeline

    A shallow embedding of [synthesizer.py] (the MIDI backend, class
    [APISynthesizer]) and [apisonify/audio.py] (the waveform backend, class
    [AudioSynthesizer]), with the properties of the mapping functions, of the
    note sequencer, of the ADSR envelope and of the PCM normalisation.

    Conventions of the embedding:
    - a Python [int] is a [Z]; a Python [float] is a rational [Q], and the
      arithmetic on floats is exact, with two exceptions: a result that is
      too large for a float is an infinity, which [int] rejects with an
      [OverflowError]; and the product of the sample rate and a duration,
      whose truncation is the number of samples of a note, is rounded to
      the nearest binary64 float. The properties below are those that do
      not depend on the rounding of the other operations: where the number
      of samples of a segment of the envelope matters, they are stated from
      that number on ([apply_adsr_samples]);
    - an element of a numpy array of floats can also be [nan] or an
      infinity;
    - a Python [dict] with string keys is a [gmap string _];
    - a Python exception is the [Raise] branch of [result];
    - [hash] is the interpreter's string hash: it is fixed for the life of a
      process, so it is a parameter of the functions that call it. *)

From Stdlib Require Import ZArith QArith Qabs Qminmax Qround Ascii String Lia.
From stdpp Require Import gmap strings list fin_maps.

Local Open Scope Z_scope.

(** ** Python values, exceptions and dictionaries *)

Inductive exn : Type :=
  | KeyError (key : string)
  | TypeError
  | ValueError
  | IndexError
  | ZeroDivisionError
  | OverflowError.

Inductive result (A : Type) : Type :=
  | Ok (a : A)
  | Raise (e : exn).

Arguments Ok {A} a.
Arguments Raise {A} e.

#[global] Instance result_ret : MRet result := fun A a => Ok a.
#[global] Instance result_bind : MBind result := fun A B f m =>
  match m with
  | Ok a => f a
  | Raise e => Raise e
  end.

Inductive pyval : Type :=
  | PyInt (z : Z)
  | PyFloat (q : Q)
  | PyStr (s : string).

(** [d[key]] *)
Definition getitem {V : Type} (d : gmap string V) (key : string) : result V :=
  match d !! key with
  | Some v => Ok v
  | None => Raise (KeyError key)
  end.

(** [d.get(key, dflt)] *)
Definition get {V : Type} (d : gmap string V) (key : string) (dflt : V) : V :=
  default dflt (d !! key).

(** The value as the [int] its annotation promises. *)
Definition as_int (v : pyval) : result Z :=
  match v with
  | PyInt z => Ok z
  | _ => Raise TypeError
  end.

(** The value as a number in a comparison or an arithmetic expression with
    floats: an [int] is converted, a [str] is a [TypeError]. *)
Definition as_num (v : pyval) : result Q :=
  match v with
  | PyInt z => Ok (inject_Z z)
  | PyFloat q => Ok q
  | PyStr _ => Raise TypeError
  end.

Definition as_str (v : pyval) : result string :=
  match v with
  | PyStr s => Ok s
  | _ => Raise TypeError
  end.

(** [x < y] on floats. *)
Definition Qlt_bool (x y : Q) : bool := negb (Qle_bool y x).

(** [int(x)] on a float: truncation towards zero. *)
Definition py_int (x : Q) : Z := Z.quot (Qnum x) (Zpos (Qden x)).

(** The results of float arithmetic from this magnitude on, halfway between
    the largest float and [2^1024], are rounded to an infinity. *)
Definition FLOAT_OVERFLOW : Q := inject_Z (2 ^ 1024 - 2 ^ 970).

Definition is_inf (x : Q) : bool := Qle_bool FLOAT_OVERFLOW (Qabs x).

(** [int(x)] on the result [x] of a float operation: an infinity is an
    [OverflowError]. *)
Definition int_of_float (x : Q) : result Z :=
  if is_inf x then Raise OverflowError else Ok (py_int x).

(** [2 ** e] *)
Definition Qpow2 (e : Z) : Q :=
  if 0 <=? e then inject_Z (2 ^ e) else 1 # Z.to_pos (2 ^ (- e)).

(** The binary64 float nearest to [x], ties to the even significand: 53
    bits, the exponent of the last place not below -1074. It is the
    identity on floats. *)
Definition binary64 (x : Q) : Q :=
  if Qeq_bool x 0 then 0%Q
  else
    let a := Qabs x in
    let e0 := Z.log2 (Qnum a) - Z.log2 (Zpos (Qden a)) in
    let e := if Qlt_bool a (Qpow2 e0) then e0 - 1 else e0 in
    let q := Z.max e (-1022) - 52 in
    let m := (a / Qpow2 q)%Q in
    let n := Qfloor m in
    let n' :=
      match (m - inject_Z n ?= 1 # 2)%Q with
      | Lt => n
      | Gt => n + 1
      | Eq => if Z.even n then n else n + 1
      end in
    let y := Qred (inject_Z n' * Qpow2 q) in
    if Qlt_bool x 0 then (- y)%Q else y.

(** [s.split(sep)[0]]: the part of [s] before the first [sep]. *)
Fixpoint split_head (sep : ascii) (s : string) : string :=
  match s with
  | EmptyString => EmptyString
  | String c s' => if Ascii.eqb c sep then EmptyString else String c (split_head sep s')
  end.

(** ** synthesizer.py *)

Module APISynthesizer.

(** One call of [MIDIFile.addNote(track, channel, pitch, time, duration,
    volume)]. *)
Record Note : Type := mkNote {
  track : Z;
  channel : Z;
  pitch : Z;
  time : Q;
  duration : Q;
  volume : Z
}.

(** The [MIDIFile] object, as the calls it has received, each kind in call
    order. *)
Record MIDIFile : Type := mkMIDIFile {
  numTracks : Z;
  tempos : list (Z * Q * Z);
  programs : list (Z * Z * Q * Z);
  notes : list Note
}.

Definition addTempo (m : MIDIFile) (tr : Z) (t : Q) (tempo : Z) : MIDIFile :=
  mkMIDIFile (numTracks m) (tempos m ++ [(tr, t, tempo)]) (programs m) (notes m).

Definition addProgramChange (m : MIDIFile) (tr ch : Z) (t : Q) (program : Z) : MIDIFile :=
  mkMIDIFile (numTracks m) (tempos m) (programs m ++ [(tr, ch, t, program)]) (notes m).

Definition addNote (m : MIDIFile) (tr ch p : Z) (t d : Q) (v : Z) : MIDIFile :=
  mkMIDIFile (numTracks m) (tempos m) (programs m) (notes m ++ [mkNote tr ch p t d v]).

Definition SCALES : gmap string (list Z) :=
  list_to_map
    [ ("major"%string, [0; 2; 4; 5; 7; 9; 11]);
      ("minor"%string, [0; 2; 3; 5; 7; 8; 10]);
      ("diminished"%string, [0; 2; 3; 5; 6; 8; 9]);
      ("chromatic"%string, [0; 1; 2; 3; 4; 5; 6]) ].

Record APISynthesizer : Type := mkSynth {
  base_tempo : Z;
  midi : MIDIFile;
  current_time : Q;
  event_count : Z
}.

Definition MELODY_TRACK : Z := 0.
Definition HARMONY_TRACK : Z := 1.
Definition BASS_TRACK : Z := 2.
Definition DRUMS_TRACK : Z := 3.

Definition _get_instrument (tr : Z) : Z :=
  let instruments : gmap Z Z := list_to_map [(0, 1); (1, 4); (2, 33); (3, 118)] in
  default 0 (instruments !! tr).

(** [__init__]: the loop over [range(4)] sets the tempo and the program of
    each track. *)
Definition __init__ (base_tempo : Z) : APISynthesizer :=
  let init_track (m : MIDIFile) (tr : Z) :=
    addProgramChange (addTempo m tr 0%Q base_tempo) tr tr 0%Q (_get_instrument tr) in
  mkSynth base_tempo
    (foldl init_track (mkMIDIFile 4 [] [] []) [0; 1; 2; 3])
    0%Q 0.

Definition _status_to_track (status : Z) : Z :=
  if (200 <=? status) && (status <? 300) then MELODY_TRACK
  else if (300 <=? status) && (status <? 400) then HARMONY_TRACK
  else if (400 <=? status) && (status <? 500) then BASS_TRACK
  else DRUMS_TRACK.

Definition _status_to_scale (status : Z) : result (list Z) :=
  if (200 <=? status) && (status <? 300) then getitem SCALES "major"
  else if (300 <=? status) && (status <? 400) then getitem SCALES "minor"
  else if (400 <=? status) && (status <? 500) then getitem SCALES "diminished"
  else getitem SCALES "chromatic".

Definition _response_time_to_pitch (response_time : Q) : result Z :=
  let base_pitch := 60 in
  offset ←
    (if Qlt_bool response_time 0.1 then
       steps ← int_of_float ((0.1 - response_time) / 0.01);
       Ok (steps + 12)
     else if Qlt_bool 1.0 response_time then
       steps ← int_of_float ((response_time - 1.0) / 0.5);
       Ok (- steps * 3)
     else Ok 0);
  Ok (Z.max 36 (Z.min 84 (base_pitch + offset))).

Section WithHash.

(** The built-in [hash] on strings. *)
Variable hash : string -> Z.

Definition _path_to_note (path : string) (scale : list Z) : result Z :=
  let path_hash := hash (split_head "?" path) in
  if Z.of_nat (length scale) =? 0 then Raise ZeroDivisionError
  else
    match scale !! Z.to_nat (Z.abs path_hash mod Z.of_nat (length scale)) with
    | Some scale_degree =>
        let base_pitch := 60 in
        Ok (base_pitch + scale_degree)
    | None => Raise IndexError
    end.

Definition add_event (self : APISynthesizer) (event : gmap string pyval)
  : result APISynthesizer :=
  status ← getitem event "status" ≫= as_int;
  let track := _status_to_track status in
  scale ← _status_to_scale status;
  rt ← as_num (get event "response_time" (PyInt 0));
  pitch ← (if Qlt_bool 0 rt then
             response_time ← getitem event "response_time" ≫= as_num;
             _response_time_to_pitch response_time
           else
             path ← getitem event "path" ≫= as_str;
             _path_to_note path scale);
  bytes_val ← as_int (get event "bytes" (PyInt 0));
  let duration :=
    if bytes_val <? 1000 then 0.25%Q
    else if bytes_val <? 10000 then 0.5%Q
    else 1.0%Q in
  let velocity :=
    if status <? 300 then 80
    else if status <? 400 then 60
    else if status <? 500 then 100
    else 120 in
  Ok (mkSynth (base_tempo self)
        (addNote (midi self) track track pitch (current_time self) duration velocity)
        (current_time self + 0.5)%Q
        (event_count self + 1)).

(** The driver loop of the command line: [add_event] on each event in
    order; an exception ends the run. *)
Fixpoint add_events (self : APISynthesizer) (events : list (gmap string pyval))
  : result APISynthesizer :=
  match events with
  | [] => Ok self
  | event :: rest => self' ← add_event self event; add_events self' rest
  end.

End WithHash.

Record Stats : Type := mkStats {
  stats_event_count : Z;
  stats_duration_seconds : Q;
  stats_tempo : Z
}.

Definition get_stats (self : APISynthesizer) : Stats :=
  mkStats (event_count self) (current_time self / 2)%Q (base_tempo self).

End APISynthesizer.

(** ** apisonify/audio.py *)

(** *** The numpy operations the module uses, on one-dimensional arrays *)

(** [np.linspace(start, stop, num)] *)
Definition linspace (start stop : Q) (num : Z) : result (list Q) :=
  if num <? 0 then Raise ValueError
  else if num =? 1 then Ok [start]
  else
    let step := ((stop - start) / inject_Z (num - 1))%Q in
    Ok (map (fun i => (start + inject_Z i * step)%Q) (seqZ 0 num)).

(** A bound [i] of a slice of a sequence of [len] elements: a negative bound
    counts from the end, and every bound is clipped to the sequence. *)
Definition slice_bound (len i : Z) : Z :=
  if i <? 0 then Z.max (i + len) 0 else Z.min i len.

(** [a[start:stop] = vals]: [vals] has the length of the slice, or one
    element that is broadcast over it; anything else is numpy's
    "could not broadcast input array" [ValueError]. *)
Definition setslice (a : list Q) (start stop : option Z) (vals : list Q)
  : result (list Q) :=
  let len := Z.of_nat (length a) in
  let lo := from_option (slice_bound len) 0 start in
  let hi := from_option (slice_bound len) len stop in
  let n := Z.to_nat (Z.max (hi - lo) 0) in
  let put (mid : list Q) := take (Z.to_nat lo) a ++ mid ++ drop (Z.to_nat lo + n) a in
  if decide (length vals = n) then Ok (put vals)
  else
    match vals with
    | [v] => Ok (put (replicate n v))
    | _ => Raise ValueError
    end.

(** [np.max(a)] *)
Definition np_max (a : list Q) : result Q :=
  match a with
  | [] => Raise ValueError
  | x :: rest => Ok (foldl Qmax x rest)
  end.

(** An element of an array of floats. *)
Inductive npfloat : Type :=
  | np_finite (q : Q)
  | np_inf
  | np_nan.

(** Division of floats in numpy does not raise: with a zero divisor it
    gives [nan] for a zero dividend and an infinity for any other, and
    warns. *)
Definition np_divide (x m : Q) : npfloat :=
  if Qeq_bool m 0 then (if Qeq_bool x 0 then np_nan else np_inf)
  else np_finite (x / m).

(** [v * k] for a float [k]. *)
Definition np_multiply (v : npfloat) (k : Q) : npfloat :=
  match v with
  | np_finite q => np_finite (q * k)
  | np_inf => if Qeq_bool k 0 then np_nan else np_inf
  | np_nan => np_nan
  end.

(** [np.int16(v)] on a float: truncation for the finite values whose
    truncation fits 16 bits; [nan] is cast to 0, with a warning; the cast of
    an infinity or of a value out of range depends on the platform and is
    [None]. *)
Definition np_int16 (v : npfloat) : option Z :=
  match v with
  | np_finite q =>
      let z := py_int q in
      if (-32768 <=? z) && (z <=? 32767) then Some z else None
  | np_inf => None
  | np_nan => Some 0
  end.

Module AudioSynthesizer.

Definition SAMPLE_RATE : Z := 44100.

Definition request_rate_to_tempo (req_per_sec : Q) : Q :=
  (60 + req_per_sec * 6)%Q.

Definition status_code_to_instrument (status_code : Z) : string :=
  if (200 <=? status_code) && (status_code <? 300) then "major_melody"
  else if (400 <=? status_code) && (status_code <? 500) then "minor_stab"
  else if (500 <=? status_code) && (status_code <? 600) then "alarm"
  else "neutral".

Definition response_time_to_pitch (response_ms : Q) : Q :=
  if Qlt_bool response_ms 100 then 523.25%Q
  else if Qlt_bool response_ms 500 then 261.63%Q
  else 130.81%Q.

Definition apply_adsr (wave : list Q) (attack decay sustain release : Q)
  : result (list Q) :=
  let length := Z.of_nat (length wave) in
  let envelope := replicate (Z.to_nat length) 1%Q in
  (* Attack *)
  let attack_samples := py_int (attack * inject_Z length) in
  ramp ← linspace 0 1 attack_samples;
  envelope ← setslice envelope None (Some attack_samples) ramp;
  (* Decay *)
  let decay_samples := py_int (decay * inject_Z length) in
  ramp ← linspace 1 sustain decay_samples;
  envelope ← setslice envelope (Some attack_samples)
                (Some (attack_samples + decay_samples)) ramp;
  (* Release *)
  let release_samples := py_int (release * inject_Z length) in
  ramp ← linspace sustain 0 release_samples;
  envelope ← setslice envelope (Some (- release_samples)) None ramp;
  Ok (zip_with Qmult wave envelope).

(** [apply_adsr(wave)] with the defaults of its signature, as [generate_note]
    calls it. *)
Definition apply_adsr_default (wave : list Q) : result (list Q) :=
  apply_adsr wave 0.1 0.1 0.7 0.2.

(** [apply_adsr] from its three numbers of samples on: the body of the
    function with [attack_samples], [decay_samples] and [release_samples]
    given instead of computed from the fractions. *)
Definition apply_adsr_samples (wave : list Q) (attack_samples decay_samples : Z)
    (sustain : Q) (release_samples : Z) : result (list Q) :=
  let length := Z.of_nat (length wave) in
  let envelope := replicate (Z.to_nat length) 1%Q in
  (* Attack *)
  ramp ← linspace 0 1 attack_samples;
  envelope ← setslice envelope None (Some attack_samples) ramp;
  (* Decay *)
  ramp ← linspace 1 sustain decay_samples;
  envelope ← setslice envelope (Some attack_samples)
                (Some (attack_samples + decay_samples)) ramp;
  (* Release *)
  ramp ← linspace sustain 0 release_samples;
  envelope ← setslice envelope (Some (- release_samples)) None ramp;
  Ok (zip_with Qmult wave envelope).

(** [save_wav]: the result is the array handed to [wavfile.write] together
    with the sample rate. *)
Definition save_wav (audio : list Q) : result (Z * list (option Z)) :=
  peak ← np_max (map Qabs audio);
  let audio_normalized :=
    map (fun x => np_int16 (np_multiply (np_divide x peak) 32767)) audio in
  Ok (SAMPLE_RATE, audio_normalized).

End AudioSynthesizer.

(** ** Vocabulary of the properties *)

(** The qualitative categories of a status code. *)
Inductive Category : Type :=
  | success
  | redirect
  | client_error
  | server_error
  | neutral.

(** The status-to-category mapping in the words of the specification:
    four bands of one hundred codes, and [neutral] for every other value. *)
Definition category_of_spec (status : Z) : Category :=
  if (200 <=? status) && (status <? 300) then success
  else if (300 <=? status) && (status <? 400) then redirect
  else if (400 <=? status) && (status <? 500) then client_error
  else if (500 <=? status) && (status <? 600) then server_error
  else neutral.

(** The category a MIDI track stands for, after the track assignments of
    [APISynthesizer.__init__] (2xx, 3xx, 4xx, 5xx). *)
Definition track_category (tr : Z) : option Category :=
  if tr =? APISynthesizer.MELODY_TRACK then Some success
  else if tr =? APISynthesizer.HARMONY_TRACK then Some redirect
  else if tr =? APISynthesizer.BASS_TRACK then Some client_error
  else if tr =? APISynthesizer.DRUMS_TRACK then Some server_error
  else None.

(** The category an instrument of the waveform backend stands for. *)
Definition instrument_category (instrument : string) : option Category :=
  if decide (instrument = "major_melody") then Some success
  else if decide (instrument = "minor_stab") then Some client_error
  else if decide (instrument = "alarm") then Some server_error
  else if decide (instrument = "neutral") then Some neutral
  else None.

(** An event record with the three fields of the round-trip scenario. *)
Definition scenario_event (status response_time bytes : Z) : gmap string pyval :=
  list_to_map
    [ ("status"%string, PyInt status);
      ("response_time"%string, PyInt response_time);
      ("bytes"%string, PyInt bytes) ].

Definition scenario : list (gmap string pyval) :=
  [ scenario_event 200 50 500;
    scenario_event 404 600 20000;
    scenario_event 500 1200 100 ].

(** An event as [LogParser._extract_event] builds it from an access-log
    line (the timestamp, which the synthesizer never reads, left out). *)
Definition log_event (method path : string) (status bytes : Z) : gmap string pyval :=
  list_to_map
    [ ("method"%string, PyStr method);
      ("path"%string, PyStr path);
      ("status"%string, PyInt status);
      ("bytes"%string, PyInt bytes);
      ("response_time"%string, PyFloat 0.0) ].

(** A string hash to run the model with: a polynomial hash, negated on
    strings of odd length so that both signs occur. *)
Definition sample_hash (s : string) : Z :=
  let h := foldl (fun acc c => acc * 31 + Z.of_nat (nat_of_ascii c)) 7
             (list_ascii_of_string s) in
  if Nat.even (String.length s) then h else - h.

(** The states of a synthesizer constructed with [tempo] after any number of
    [add_event] calls that returned; a call that raises leaves the object as
    it was. *)
Inductive reachable (hash : string -> Z) (tempo : Z)
  : APISynthesizer.APISynthesizer -> Prop :=
  | reachable_init :
      reachable hash tempo (APISynthesizer.__init__ tempo)
  | reachable_add_event self event self' :
      reachable hash tempo self ->
      APISynthesizer.add_event hash self event = Ok self' ->
      reachable hash tempo self'.

(** The pitch that [_response_time_to_pitch] returns when the truncation
    of its offset does not overflow. *)
Definition returned_pitch (rt : Q) : Z :=
  let offset :=
    if Qlt_bool rt 0.1 then py_int ((0.1 - rt) / 0.01) + 12
    else if Qlt_bool 1.0 rt then - py_int ((rt - 1.0) / 0.5) * 3
    else 0 in
  Z.max 36 (Z.min 84 (60 + offset)).

(** The position of a note on the clock: half a beat per earlier note. *)
Definition beat (i : nat) : Q := (inject_Z (Z.of_nat i) * 0.5)%Q.

(** The five kinds of request of the demonstration log of the command
    line, one event of each. *)
Definition demo_events : list (gmap string pyval) :=
  [ log_event "GET" "/api/users" 200 1234;
    log_event "GET" "/old-path" 301 0;
    log_event "GET" "/api/missing" 404 512;
    log_event "POST" "/api/process" 500 256;
    log_event "GET" "/api/health" 200 89 ].

(** The number of elements of the slice [a[start:stop]]. *)
Definition slice_length (a : list Q) (start stop : option Z) : nat :=
  let len := Z.of_nat (length a) in
  Z.to_nat (Z.max (from_option (slice_bound len) len stop
                   - from_option (slice_bound len) 0 start) 0).

(** A buffer with a sample that is not zero. *)
Definition audible (audio : list Q) : Prop :=
  Exists (fun x => ~ (x == 0)%Q) audio.

(** ** The rest of apisonify/audio.py and apisonify/cli.py *)

(** [np.zeros(n)] *)
Definition np_zeros (n : Z) : result (list Q) :=
  if n <? 0 then Raise ValueError else Ok (replicate (Z.to_nat n) 0%Q).

(** [a + b] on arrays: elementwise on equal lengths, an array of one element
    is broadcast, other lengths are a [ValueError]. *)
Definition np_add (a b : list Q) : result (list Q) :=
  if decide (length a = length b) then Ok (zip_with Qplus a b)
  else
    match a, b with
    | [x], _ => Ok (map (fun y => (x + y)%Q) b)
    | _, [y] => Ok (map (fun x => (x + y)%Q) a)
    | _, _ => Raise ValueError
    end.

(** [np.concatenate(arrays)] on a list of one-dimensional arrays; the empty
    list is a [ValueError]. *)
Definition np_concatenate (arrays : list (list Q)) : result (list Q) :=
  match arrays with
  | [] => Raise ValueError
  | _ => Ok (concat arrays)
  end.

Module Waveform.

Import AudioSynthesizer.

Section WithNumpy.

(** [np.sin] and [np.pi]. *)
Variable np_sin : Q -> Q.
Variable np_pi : Q.

(** The state of numpy's random generator, and
    [np.random.normal(loc, scale, size)] drawing from it. *)
Variable rng : Type.
Variable normal : rng -> Q -> Q -> Z -> list Q * rng.

(** The number of samples, [int(self.sample_rate * duration)], is the
    truncation of a float product: of the sample rate and the float that
    [duration] stands for. *)
Definition generate_sine_wave (freq duration amplitude : Q) : result (list Q) :=
  num ← int_of_float (binary64 (inject_Z SAMPLE_RATE * binary64 duration));
  t ← linspace 0 duration num;
  Ok (map (fun ti => (amplitude * np_sin (2 * np_pi * freq * ti))%Q) t).

Definition generate_note (g : rng) (status_code : Z) (response_time duration : Q)
  : result (list Q * rng) :=
  let freq := response_time_to_pitch response_time in
  let instrument := status_code_to_instrument status_code in
  '(wave, g) ←
    (if decide (instrument = "major_melody") then
       wave ← generate_sine_wave freq duration 0.5; Ok (wave, g)
     else if decide (instrument = "minor_stab") then
       wave ← generate_sine_wave (freq * 0.8) duration 0.7; Ok (wave, g)
     else if decide (instrument = "alarm") then
       wave ← generate_sine_wave freq duration 0.8;
       let '(noise, g') := normal g 0 0.2 (Z.of_nat (length wave)) in
       wave ← np_add wave noise;
       Ok (wave, g')
     else
       wave ← generate_sine_wave freq duration 0.3; Ok (wave, g));
  envelope ← apply_adsr_default wave;
  Ok (envelope, g).

(** The loop of [main] over the log entries: a note and a tenth of a second
    of silence for each. *)
Fixpoint audio_segments (g : rng) (logs : list (gmap string pyval)) (duration : Q)
  : result (list (list Q) * rng) :=
  match logs with
  | [] => Ok ([], g)
  | log :: rest =>
      status ← as_int (get log "status" (PyInt 200));
      response_time ← as_num (get log "response_time_ms" (PyInt 100));
      '(note, g) ← generate_note g status response_time duration;
      num ← int_of_float (binary64 (inject_Z SAMPLE_RATE * binary64 0.1));
      silence ← np_zeros num;
      '(more, g) ← audio_segments g rest duration;
      Ok (note :: silence :: more, g)
  end.

(** [full_audio] of [main]. *)
Definition full_audio (g : rng) (logs : list (gmap string pyval)) (duration : Q)
  : result (list Q) :=
  '(segments, _) ← audio_segments g logs duration;
  np_concatenate segments.

(** [main] on the decoded log file: what it hands to [wavfile.write]. *)
Definition main (g : rng) (logs : list (gmap string pyval)) (duration : Q)
  : result (Z * list (option Z)) :=
  audio ← full_audio g logs duration;
  save_wav audio.

End WithNumpy.

End Waveform.

(** ** cli.py *)

Module CLI.

Import APISynthesizer.

Section WithHash.

Variable hash : string -> Z.

(** The loop of [sonify] over the events that [stream_file] yields, with
    its counter; [limit] is [None] when the option is not given, and
    [limit and count >= limit] is false for [None] and for 0. *)
Fixpoint sonify_loop (synth : APISynthesizer) (count : Z) (limit : option Z)
    (events : list (gmap string pyval)) : result (APISynthesizer * Z) :=
  match events with
  | [] => Ok (synth, count)
  | event :: rest =>
      synth' ← add_event hash synth event;
      let count := count + 1 in
      if match limit with
         | Some n => negb (n =? 0) && (n <=? count)
         | None => false
         end
      then Ok (synth', count)
      else sonify_loop synth' count limit rest
  end.

(** [sonify]: the statistics it prints. *)
Definition sonify (events : list (gmap string pyval)) (tempo : Z) (limit : option Z)
  : result Stats :=
  '(synth, _) ← sonify_loop (__init__ tempo) 0 limit events;
  Ok (get_stats synth).

End WithHash.

End CLI.

(** ** Vocabulary of the further properties *)

(** The duration and the velocity that [add_event] computes in line, as
    functions of the byte count and of the status. *)
Definition note_duration (bytes_val : Z) : Q :=
  if bytes_val <? 1000 then 0.25%Q
  else if bytes_val <? 10000 then 0.5%Q
  else 1.0%Q.

Definition note_velocity (status : Z) : Z :=
  if status <? 300 then 80
  else if status <? 400 then 60
  else if status <? 500 then 100
  else 120.

(** The events that [sonify] gets to: all of them without a limit or with
    the limit 0, the first [limit] of them with a positive limit, the first
    one with a negative limit. *)
Definition events_within (limit : option Z) (events : list (gmap string pyval))
  : list (gmap string pyval) :=
  match limit with
  | None => events
  | Some n => if n =? 0 then events else take (Z.to_nat (Z.max n 1)) events
  end.

(** The number of samples of a note of [duration] seconds:
    [int(self.sample_rate * duration)]. *)
Definition note_samples (duration : Q) : result Z :=
  int_of_float (binary64 (inject_Z AudioSynthesizer.SAMPLE_RATE * binary64 duration)).

(** A log entry of the JSON file read by [main]. *)
Definition json_log (status : Z) (response_time_ms : Q) : gmap string pyval :=
  list_to_map
    [ ("status"%string, PyInt status);
      ("response_time_ms"%string, PyFloat response_time_ms) ].

(** Stand-ins for [np.sin] and [np.random.normal] to run the model with: a
    bounded odd function, and a generator that counts the samples drawn. *)
Definition sample_sin (x : Q) : Q := (x / (1 + x * x))%Q.

Definition sample_normal (g : Z) (loc scale : Q) (size : Z) : list Q * Z :=
  (map (fun i => (loc + scale * sample_sin (inject_Z (g + i)))%Q) (seqZ 0 size),
   g + size).

(** * Properties *)

Import APISynthesizer AudioSynthesizer.

(** ** Comparisons and truncation *)

Lemma Qlt_bool_true (x y : Q) : Qlt_bool x y = true <-> (x < y)%Q.
Proof.
  unfold Qlt_bool. rewrite negb_true_iff. split.
  - intros H. apply Qnot_le_lt. intros Hle.
    apply Qle_bool_iff in Hle. congruence.
  - intros H. destruct (Qle_bool y x) eqn:E; [|reflexivity].
    apply Qle_bool_iff in E. exfalso. exact (Qlt_not_le _ _ H E).
Qed.

Lemma Qlt_bool_false (x y : Q) : Qlt_bool x y = false <-> (y <= x)%Q.
Proof.
  unfold Qlt_bool. rewrite negb_false_iff. apply Qle_bool_iff.
Qed.

Lemma py_int_nonneg (x : Q) : (0 <= x)%Q -> 0 <= py_int x.
Proof.
  unfold py_int, Qle. simpl. intros H.
  apply Z.quot_pos; lia.
Qed.

Lemma fast_offset_nonneg (rt : Q) :
  (rt < 0.1)%Q -> 0 <= py_int ((0.1 - rt) / 0.01).
Proof.
  intros H. apply py_int_nonneg.
  apply Qle_shift_div_l; [reflexivity|].
  rewrite Qmult_0_l. apply Qlt_le_weak.
  exact (proj1 (Qlt_minus_iff _ _) H).
Qed.

Lemma slow_offset_nonneg (rt : Q) :
  (1.0 < rt)%Q -> 0 <= py_int ((rt - 1.0) / 0.5).
Proof.
  intros H. apply py_int_nonneg.
  apply Qle_shift_div_l; [reflexivity|].
  rewrite Qmult_0_l. apply Qlt_le_weak.
  exact (proj1 (Qlt_minus_iff _ _) H).
Qed.

Lemma py_int_monotone (x y : Q) : (x <= y)%Q -> py_int x <= py_int y.
Proof.
  unfold Qle, py_int. intros H.
  rewrite <- (Z.quot_mul_cancel_r (Qnum x) (Z.pos (Qden x)) (Z.pos (Qden y))) by lia.
  rewrite <- (Z.quot_mul_cancel_r (Qnum y) (Z.pos (Qden y)) (Z.pos (Qden x))) by lia.
  rewrite (Z.mul_comm (Z.pos (Qden y)) (Z.pos (Qden x))).
  apply Z.quot_le_mono; lia.
Qed.

Lemma Qdiv_le_compat_r (x y z : Q) : (0 < z)%Q -> (x <= y)%Q -> (x / z <= y / z)%Q.
Proof.
  intros Hz H. unfold Qdiv. apply Qmult_le_compat_r; [exact H|].
  apply Qlt_le_weak, Qinv_lt_0_compat, Hz.
Qed.

Lemma Qminus_le_compat (x y z : Q) : (x <= y)%Q -> (x - z <= y - z)%Q.
Proof. intros H. unfold Qminus. apply Qplus_le_compat; [exact H | apply Qle_refl]. Qed.

Lemma Qminus_le_anti (x y z : Q) : (x <= y)%Q -> (z - y <= z - x)%Q.
Proof.
  intros H. unfold Qminus. apply Qplus_le_compat; [apply Qle_refl|].
  apply Qopp_le_compat. exact H.
Qed.

(** ** Overflow *)

Lemma int_of_float_inv (x : Q) (z : Z) : int_of_float x = Ok z -> z = py_int x.
Proof.
  unfold int_of_float. destruct (is_inf x); [discriminate|].
  intros H. injection H as <-. reflexivity.
Qed.

Lemma int_of_float_ok (x : Q) :
  (Qabs x < FLOAT_OVERFLOW)%Q -> int_of_float x = Ok (py_int x).
Proof.
  intros H. unfold int_of_float, is_inf.
  destruct (Qle_bool FLOAT_OVERFLOW (Qabs x)) eqn:E; [|reflexivity].
  apply Qle_bool_iff in E. exfalso. exact (Qlt_not_le _ _ H E).
Qed.

Lemma int_of_float_raises (x : Q) :
  (FLOAT_OVERFLOW <= Qabs x)%Q -> int_of_float x = Raise OverflowError.
Proof.
  intros H. unfold int_of_float, is_inf.
  apply Qle_bool_iff in H. rewrite H. reflexivity.
Qed.

Lemma int_of_float_cases (x : Q) :
  int_of_float x = Ok (py_int x) \/ int_of_float x = Raise OverflowError.
Proof. unfold int_of_float. destruct (is_inf x); auto. Qed.

(** ** The pitch of a response time, where it is returned *)

Lemma response_time_to_pitch_cases (rt : Q) :
  _response_time_to_pitch rt = Ok (returned_pitch rt) \/
  _response_time_to_pitch rt = Raise OverflowError.
Proof.
  unfold _response_time_to_pitch, returned_pitch.
  destruct (Qlt_bool rt 0.1).
  - destruct (int_of_float_cases ((0.1 - rt) / 0.01)) as [-> | ->]; auto.
  - destruct (Qlt_bool 1.0 rt); [|auto].
    destruct (int_of_float_cases ((rt - 1.0) / 0.5)) as [-> | ->]; auto.
Qed.

Lemma response_time_to_pitch_returned (rt : Q) (p : Z) :
  _response_time_to_pitch rt = Ok p -> p = returned_pitch rt.
Proof.
  destruct (response_time_to_pitch_cases rt) as [-> | ->]; [|discriminate].
  intros H. injection H as <-. reflexivity.
Qed.

Lemma response_time_to_pitch_raises (rt : Q) (e : exn) :
  _response_time_to_pitch rt = Raise e -> e = OverflowError.
Proof.
  destruct (response_time_to_pitch_cases rt) as [-> | ->]; [discriminate|].
  intros H. injection H as <-. reflexivity.
Qed.

Lemma returned_pitch_range (rt : Q) : 36 <= returned_pitch rt <= 84.
Proof. unfold returned_pitch. lia. Qed.

Lemma returned_pitch_antitone (rt1 rt2 : Q) :
  (rt1 <= rt2)%Q -> returned_pitch rt2 <= returned_pitch rt1.
Proof.
  intros H. unfold returned_pitch.
  destruct (Qlt_bool rt1 0.1) eqn:F1; destruct (Qlt_bool rt2 0.1) eqn:F2;
    [| | |destruct (Qlt_bool 1.0 rt1) eqn:S1; destruct (Qlt_bool 1.0 rt2) eqn:S2];
    repeat match goal with
    | E : Qlt_bool _ _ = true |- _ => apply Qlt_bool_true in E
    | E : Qlt_bool _ _ = false |- _ => apply Qlt_bool_false in E
    end.
  - pose proof (py_int_monotone _ _
                  (Qdiv_le_compat_r _ _ 0.01 eq_refl (Qminus_le_anti _ _ 0.1 H))).
    lia.
  - pose proof (fast_offset_nonneg rt1 F1).
    destruct (Qlt_bool 1.0 rt2) eqn:S2.
    + apply Qlt_bool_true in S2. pose proof (slow_offset_nonneg rt2 S2). lia.
    + lia.
  - exfalso. apply (Qlt_not_le _ _ F2). eapply Qle_trans; [exact F1 | exact H].
  - pose proof (py_int_monotone _ _
                  (Qdiv_le_compat_r _ _ 0.5 eq_refl (Qminus_le_compat _ _ 1.0 H))).
    lia.
  - exfalso. apply (Qlt_not_le _ _ S1). eapply Qle_trans; [exact H | exact S2].
  - pose proof (slow_offset_nonneg rt2 S2). lia.
  - lia.
Qed.

Lemma response_time_to_pitch_ok (rt : Q) :
  (- inject_Z (10 ^ 300) <= rt)%Q -> (rt <= inject_Z (10 ^ 300))%Q ->
  _response_time_to_pitch rt = Ok (returned_pitch rt).
Proof.
  intros Hlo Hhi. unfold _response_time_to_pitch, returned_pitch.
  destruct (Qlt_bool rt 0.1) eqn:F.
  - apply Qlt_bool_true in F.
    rewrite int_of_float_ok; [reflexivity|].
    rewrite Qabs_pos.
    + apply Qle_lt_trans with ((0.1 - - inject_Z (10 ^ 300)) / 0.01)%Q.
      * apply Qdiv_le_compat_r; [reflexivity|]. apply Qminus_le_anti. exact Hlo.
      * vm_compute. reflexivity.
    + apply Qle_shift_div_l; [reflexivity|]. rewrite Qmult_0_l.
      apply Qlt_le_weak. exact (proj1 (Qlt_minus_iff _ _) F).
  - destruct (Qlt_bool 1.0 rt) eqn:S; [|reflexivity].
    apply Qlt_bool_true in S.
    rewrite int_of_float_ok; [reflexivity|].
    rewrite Qabs_pos.
    + apply Qle_lt_trans with ((inject_Z (10 ^ 300) - 1.0) / 0.5)%Q.
      * apply Qdiv_le_compat_r; [reflexivity|]. apply Qminus_le_compat. exact Hhi.
      * vm_compute. reflexivity.
    + apply Qle_shift_div_l; [reflexivity|]. rewrite Qmult_0_l.
      apply Qlt_le_weak. exact (proj1 (Qlt_minus_iff _ _) S).
Qed.

Lemma response_time_to_pitch_overflow (rt : Q) :
  (inject_Z (2 ^ 1023) <= rt)%Q ->
  _response_time_to_pitch rt = Raise OverflowError.
Proof.
  intros H. unfold _response_time_to_pitch.
  assert (F : Qlt_bool rt 0.1 = false).
  { apply Qlt_bool_false. eapply Qle_trans; [|exact H]. vm_compute. discriminate. }
  assert (S : Qlt_bool 1.0 rt = true).
  { apply Qlt_bool_true. eapply Qlt_le_trans; [|exact H]. vm_compute. reflexivity. }
  rewrite F, S. rewrite int_of_float_raises; [reflexivity|].
  apply Qle_trans with ((inject_Z (2 ^ 1023) - 1.0) / 0.5)%Q.
  - vm_compute. discriminate.
  - eapply Qle_trans; [|apply Qle_Qabs].
    apply Qdiv_le_compat_r; [reflexivity|]. apply Qminus_le_compat. exact H.
Qed.

(** ** Status codes *)

(** C2, as the specification words it, fails on both backends: status 100
    goes to the drums track, the track of the server errors, and status 301
    gets the neutral instrument. *)
Lemma status_category_counterexample :
  track_category (_status_to_track 100) = Some server_error /\
  category_of_spec 100 = neutral /\
  instrument_category (status_code_to_instrument 301) = Some neutral /\
  category_of_spec 301 = redirect /\
  ~ (forall status, track_category (_status_to_track status) = Some (category_of_spec status)) /\
  ~ (forall status,
       instrument_category (status_code_to_instrument status) = Some (category_of_spec status)).
Proof.
  repeat split; try reflexivity.
  - intros H. specialize (H 100). discriminate H.
  - intros H. specialize (H 301). discriminate H.
Qed.

(** C2 (amended): both mappings are total functions of the integer status.
    [_status_to_track] sends [200,300) to the melody track, [300,400) to the
    harmony track, [400,500) to the bass track and every other integer, in
    and out of [500,600), to the drums track. [status_code_to_instrument]
    sends [200,300) to ["major_melody"], [400,500) to ["minor_stab"],
    [500,600) to ["alarm"] and every other integer, [300,400) included, to
    ["neutral"]. *)
Theorem status_mapping_total (status : Z) :
  (200 <= status < 300 ->
     _status_to_track status = MELODY_TRACK /\
     status_code_to_instrument status = "major_melody"%string) /\
  (300 <= status < 400 ->
     _status_to_track status = HARMONY_TRACK /\
     status_code_to_instrument status = "neutral"%string) /\
  (400 <= status < 500 ->
     _status_to_track status = BASS_TRACK /\
     status_code_to_instrument status = "minor_stab"%string) /\
  (500 <= status < 600 ->
     _status_to_track status = DRUMS_TRACK /\
     status_code_to_instrument status = "alarm"%string) /\
  (status < 200 \/ 600 <= status ->
     _status_to_track status = DRUMS_TRACK /\
     status_code_to_instrument status = "neutral"%string).
Proof.
  unfold _status_to_track, status_code_to_instrument.
  repeat split; intros;
    repeat match goal with
    | |- context [?a <=? ?b] => destruct (Z.leb_spec a b); simpl
    | |- context [?a <? ?b] => destruct (Z.ltb_spec a b); simpl
    end; try reflexivity; lia.
Qed.

Lemma status_mapping_total_witness :
  (_status_to_track 204 = MELODY_TRACK /\
   status_code_to_instrument 204 = "major_melody"%string) /\
  (_status_to_track 301 = HARMONY_TRACK /\
   status_code_to_instrument 301 = "neutral"%string) /\
  (_status_to_track 404 = BASS_TRACK /\
   status_code_to_instrument 404 = "minor_stab"%string) /\
  (_status_to_track 503 = DRUMS_TRACK /\
   status_code_to_instrument 503 = "alarm"%string) /\
  (_status_to_track 100 = DRUMS_TRACK /\
   status_code_to_instrument 100 = "neutral"%string) /\
  (_status_to_track 999 = DRUMS_TRACK /\
   status_code_to_instrument 999 = "neutral"%string).
Proof.
  split; [|split; [|split; [|split; [|split]]]].
  - destruct (status_mapping_total 204) as (H & _). apply H. lia.
  - destruct (status_mapping_total 301) as (_ & H & _). apply H. lia.
  - destruct (status_mapping_total 404) as (_ & _ & H & _). apply H. lia.
  - destruct (status_mapping_total 503) as (_ & _ & _ & H & _). apply H. lia.
  - destruct (status_mapping_total 100) as (_ & _ & _ & _ & H). apply H. lia.
  - destruct (status_mapping_total 999) as (_ & _ & _ & _ & H). apply H. lia.
Defined.

(** ** Response time *)

(** C3, as the specification words it, fails on the MIDI backend: the pitch
    is not constant below 100 ms (0 s and 50 ms differ), and 600 ms is in
    the slow band of the waveform backend but in the medium band of the
    MIDI backend, whose upper threshold is one second. *)
Lemma pitch_bands_counterexample :
  _response_time_to_pitch 0 = Ok 82 /\
  _response_time_to_pitch 0.05 = Ok 77 /\
  ~ (exists fast, forall rt, (rt < 0.1)%Q -> _response_time_to_pitch rt = Ok fast) /\
  response_time_to_pitch 600 = response_time_to_pitch 5000 /\
  response_time_to_pitch 600 <> response_time_to_pitch 100 /\
  _response_time_to_pitch 0.6 = _response_time_to_pitch 0.1 /\
  _response_time_to_pitch 0.6 <> _response_time_to_pitch 5.
Proof.
  repeat split; try reflexivity; try discriminate.
  intros [fast H].
  pose proof (H 0%Q eq_refl) as H0.
  pose proof (H 0.05%Q eq_refl) as H1.
  vm_compute in H0, H1. congruence.
Qed.

(** C3 (amended): [response_time_to_pitch] of the waveform backend is
    constant on each of the three bands below 100 ms, [100,500) ms and from
    500 ms on, so 100 ms exactly is in the medium band. [_response_time_to_pitch]
    of the MIDI backend takes seconds and has other bands. On the closed
    band from 0.1 s to 1 s it returns 60, so 0.1 s exactly is in the medium
    band. Below 0.1 s every pitch it returns is between 72 and 84, and it
    does return one, between 72 and 82, from 0 s on; the pitch is not
    constant there (82 at 0 s, 77 at 50 ms). Above 1 s every pitch it
    returns is between 36 and 60, not constant either (54 at 2 s, 36 at
    5 s), and it returns one up to [10^300] seconds at least; from [2^1023]
    seconds on the offset is an infinity and the call raises
    [OverflowError]. *)
Theorem response_time_bands (t : Q) :
  ((t < 100)%Q -> response_time_to_pitch t = 523.25%Q) /\
  ((100 <= t)%Q -> (t < 500)%Q -> response_time_to_pitch t = 261.63%Q) /\
  ((500 <= t)%Q -> response_time_to_pitch t = 130.81%Q) /\
  ((0.1 <= t)%Q -> (t <= 1.0)%Q -> _response_time_to_pitch t = Ok 60) /\
  ((t < 0.1)%Q -> forall p, _response_time_to_pitch t = Ok p -> 72 <= p <= 84) /\
  ((0 <= t)%Q -> (t < 0.1)%Q ->
     exists p, _response_time_to_pitch t = Ok p /\ 72 <= p <= 82) /\
  ((1.0 < t)%Q -> forall p, _response_time_to_pitch t = Ok p -> 36 <= p <= 60) /\
  ((1.0 < t)%Q -> (t <= inject_Z (10 ^ 300))%Q ->
     exists p, _response_time_to_pitch t = Ok p /\ 36 <= p <= 60) /\
  ((inject_Z (2 ^ 1023) <= t)%Q -> _response_time_to_pitch t = Raise OverflowError) /\
  _response_time_to_pitch 0 = Ok 82 /\
  _response_time_to_pitch 0.05 = Ok 77 /\
  _response_time_to_pitch 2 = Ok 54 /\
  _response_time_to_pitch 5 = Ok 36.
Proof.
  assert (Hfast : (t < 0.1)%Q -> 72 <= returned_pitch t <= 84).
  { intros H. pose proof (fast_offset_nonneg t H) as Hn.
    unfold returned_pitch. apply Qlt_bool_true in H. rewrite H. lia. }
  assert (Hslow : (1.0 < t)%Q -> 36 <= returned_pitch t <= 60).
  { intros H. pose proof (slow_offset_nonneg t H) as Hn.
    assert (H' : (0.1 <= t)%Q).
    { apply Qlt_le_weak. eapply Qlt_trans; [|exact H]. reflexivity. }
    unfold returned_pitch.
    apply Qlt_bool_true in H. apply Qlt_bool_false in H'. rewrite H, H'. lia. }
  split; [|split; [|split; [|split; [|split; [|split; [|split; [|split; [|split]]]]]]]].
  - unfold response_time_to_pitch.
    intros H. apply Qlt_bool_true in H. rewrite H. reflexivity.
  - unfold response_time_to_pitch.
    intros H1 H2. apply Qlt_bool_false in H1. apply Qlt_bool_true in H2.
    rewrite H1, H2. reflexivity.
  - unfold response_time_to_pitch. intros H.
    assert (H' : (100 <= t)%Q) by (eapply Qle_trans; [|exact H]; discriminate).
    apply Qlt_bool_false in H, H'. rewrite H, H'. reflexivity.
  - unfold _response_time_to_pitch.
    intros H1 H2. apply Qlt_bool_false in H1, H2. rewrite H1, H2. reflexivity.
  - intros H p E. rewrite (response_time_to_pitch_returned t p E). exact (Hfast H).
  - intros H0 H. exists (returned_pitch t). split.
    + apply response_time_to_pitch_ok.
      * eapply Qle_trans; [|exact H0]. vm_compute. discriminate.
      * apply Qlt_le_weak. eapply Qlt_trans; [exact H|]. vm_compute. reflexivity.
    + pose proof (Hfast H). pose proof (returned_pitch_antitone 0 t H0) as Hm.
      change (returned_pitch 0) with 82 in Hm. lia.
  - intros H p E. rewrite (response_time_to_pitch_returned t p E). exact (Hslow H).
  - intros H Hhi. exists (returned_pitch t). split; [|exact (Hslow H)].
    apply response_time_to_pitch_ok; [|exact Hhi].
    apply Qlt_le_weak. eapply Qlt_trans; [|exact H]. vm_compute. reflexivity.
  - apply response_time_to_pitch_overflow.
  - repeat split; vm_compute; reflexivity.
Qed.

Lemma response_time_bands_witness :
  response_time_to_pitch 99 = 523.25%Q /\
  response_time_to_pitch 100 = 261.63%Q /\
  response_time_to_pitch 500 = 130.81%Q /\
  _response_time_to_pitch 0.1 = Ok 60 /\
  (forall p, _response_time_to_pitch (-0.5) = Ok p -> 72 <= p <= 84) /\
  (exists p, _response_time_to_pitch 0.03 = Ok p /\ 72 <= p <= 82) /\
  (forall p, _response_time_to_pitch 1.7 = Ok p -> 36 <= p <= 60) /\
  (exists p, _response_time_to_pitch 1.7 = Ok p /\ 36 <= p <= 60) /\
  _response_time_to_pitch (inject_Z (10 ^ 308)) = Raise OverflowError.
Proof.
  split; [|split; [|split; [|split; [|split; [|split; [|split; [|split]]]]]]].
  - destruct (response_time_bands 99) as (H & _). apply H. reflexivity.
  - destruct (response_time_bands 100) as (_ & H & _).
    apply H; [discriminate | reflexivity].
  - destruct (response_time_bands 500) as (_ & _ & H & _). apply H. discriminate.
  - destruct (response_time_bands 0.1) as (_ & _ & _ & H & _).
    apply H; discriminate.
  - destruct (response_time_bands (-0.5)) as (_ & _ & _ & _ & H & _).
    apply H. reflexivity.
  - destruct (response_time_bands 0.03) as (_ & _ & _ & _ & _ & H & _).
    apply H; [discriminate | reflexivity].
  - destruct (response_time_bands 1.7) as (_ & _ & _ & _ & _ & _ & H & _).
    apply H. reflexivity.
  - destruct (response_time_bands 1.7) as (_ & _ & _ & _ & _ & _ & _ & H & _).
    apply H; [reflexivity | vm_compute; discriminate].
  - destruct (response_time_bands (inject_Z (10 ^ 308)))
      as (_ & _ & _ & _ & _ & _ & _ & _ & H & _).
    apply H. vm_compute. discriminate.
Defined.

(** ** Paths *)

Lemma split_head_query (p q : string) :
  split_head "?" (p +:+ "?" +:+ q) = split_head "?" p.
Proof.
  induction p as [|c p IH]; simpl.
  - reflexivity.
  - destruct (Ascii.eqb c "?"); [reflexivity | f_equal; exact IH].
Qed.

Lemma scale_index_in_range (h : Z) (scale : list Z) :
  scale <> [] ->
  (Z.to_nat (Z.abs h mod Z.of_nat (length scale)) < length scale)%nat.
Proof.
  intros Hne.
  assert (0 < Z.of_nat (length scale)) by (destruct scale; [congruence | simpl; lia]).
  pose proof (Z.mod_pos_bound (Z.abs h) (Z.of_nat (length scale)) ltac:(lia)).
  lia.
Qed.

Lemma path_to_note_degree (hash : string -> Z) (path : string) (scale : list Z) :
  scale <> [] ->
  exists degree,
    degree ∈ scale /\ _path_to_note hash path scale = Ok (60 + degree).
Proof.
  intros Hne. unfold _path_to_note.
  destruct (Z.eqb_spec (Z.of_nat (length scale)) 0) as [E|_].
  { destruct scale; [congruence | simpl in E; lia]. }
  destruct (lookup_lt_is_Some_2 scale _
              (scale_index_in_range (hash (split_head "?" path)) scale Hne))
    as [d Hd].
  rewrite Hd. exists d. split; [|reflexivity].
  apply list_elem_of_lookup. eauto.
Qed.

Lemma split_head_whole (path : string) :
  (forall c, c ∈ list_ascii_of_string path -> c <> "?"%char) ->
  split_head "?" path = path.
Proof.
  induction path as [|c path IH]; simpl; intros H; [reflexivity|].
  destruct (Ascii.eqb_spec c "?") as [->|_].
  - exfalso. apply (H "?"%char); [left | reflexivity].
  - f_equal. apply IH. intros c' Hc'. apply H. right. exact Hc'.
Qed.

Lemma path_to_note_index (hash : string -> Z) (path : string) (scale : list Z) :
  scale <> [] ->
  exists degree,
    scale !! Z.to_nat (Z.abs (hash (split_head "?" path)) mod Z.of_nat (length scale))
      = Some degree /\
    degree ∈ scale /\
    _path_to_note hash path scale = Ok (60 + degree).
Proof.
  intros Hne. unfold _path_to_note.
  destruct (Z.eqb_spec (Z.of_nat (length scale)) 0) as [E|_].
  { destruct scale; [congruence | simpl in E; lia]. }
  destruct (lookup_lt_is_Some_2 scale _
              (scale_index_in_range (hash (split_head "?" path)) scale Hne))
    as [d Hd].
  rewrite Hd. exists d. split; [reflexivity|]. split; [|reflexivity].
  apply list_elem_of_lookup. eauto.
Qed.

(** C8: [_path_to_note] hashes the path before its first ["?"], the whole
    path when it has none, and reduces the absolute value of the hash
    modulo the length of the scale: on a scale that is not empty the result
    is 60 plus the entry of the scale at that index. So a query string
    appended to the path does not change the result, and two paths that
    agree before the query get the same result on every call. *)
Theorem path_to_note_ignores_query
    (hash : string -> Z) (p q : string) (s : list Z) :
  split_head "?" (p +:+ "?" +:+ q) = split_head "?" p /\
  ((forall c, c ∈ list_ascii_of_string p -> c <> "?"%char) ->
   split_head "?" p = p) /\
  _path_to_note hash (p +:+ "?" +:+ q) s = _path_to_note hash p s /\
  (forall p', split_head "?" p' = split_head "?" p ->
     _path_to_note hash p' s = _path_to_note hash p s) /\
  (s <> [] ->
     exists degree,
       s !! Z.to_nat (Z.abs (hash (split_head "?" p)) mod Z.of_nat (length s))
         = Some degree /\
       degree ∈ s /\
       _path_to_note hash p s = Ok (60 + degree) /\
       _path_to_note hash (p +:+ "?" +:+ q) s = Ok (60 + degree)).
Proof.
  assert (Hq : _path_to_note hash (p +:+ "?" +:+ q) s = _path_to_note hash p s).
  { unfold _path_to_note. rewrite split_head_query. reflexivity. }
  split; [apply split_head_query|].
  split; [apply split_head_whole|].
  split; [exact Hq|]. split.
  - intros p' Hp. unfold _path_to_note. rewrite Hp. reflexivity.
  - intros Hne. destruct (path_to_note_index hash p s Hne) as (degree & Hi & Hin & E).
    exists degree. rewrite Hq. auto.
Qed.

Lemma path_to_note_ignores_query_witness :
  split_head "?" "/api/users?page=2" = "/api/users"%string /\
  Z.abs (sample_hash "/api/users") mod 7 = 1 /\
  _path_to_note sample_hash "/api/users" [0; 2; 4; 5; 7; 9; 11] = Ok 62 /\
  _path_to_note sample_hash "/api/users?page=2" [0; 2; 4; 5; 7; 9; 11] = Ok 62 /\
  _path_to_note sample_hash "/api/users?sort=name" [0; 2; 4; 5; 7; 9; 11] = Ok 62.
Proof.
  destruct (path_to_note_ignores_query sample_hash "/api/users" "page=2"
              [0; 2; 4; 5; 7; 9; 11]) as (H1 & H2 & _ & H4 & H5).
  assert (Hwhole : split_head "?" "/api/users" = "/api/users"%string).
  { apply H2. intros c Hc. simpl in Hc.
    repeat (apply elem_of_cons in Hc; destruct Hc as [-> | Hc]; [discriminate|]).
    inversion Hc. }
  destruct (H5 ltac:(discriminate)) as (degree & Hi & _ & E & Eq).
  rewrite Hwhole in Hi.
  change (Z.abs (sample_hash "/api/users") mod Z.of_nat (length [0; 2; 4; 5; 7; 9; 11]))
    with 1 in Hi.
  simpl in Hi. injection Hi as <-.
  split; [exact (eq_trans H1 Hwhole)|].
  split; [reflexivity|].
  split; [exact E|]. split; [exact Eq|].
  exact (eq_trans (H4 "/api/users?sort=name"%string eq_refl) E).
Defined.

(** ** One call of [add_event] *)

Lemma status_to_scale_ok (status : Z) :
  exists scale,
    _status_to_scale status = Ok scale /\
    length scale = 7%nat /\
    Forall (fun degree => 0 <= degree <= 11) scale.
Proof.
  unfold _status_to_scale.
  destruct ((200 <=? status) && (status <? 300));
    [|destruct ((300 <=? status) && (status <? 400));
      [|destruct ((400 <=? status) && (status <? 500))]];
    eexists; (split; [reflexivity | split; [reflexivity |]]);
    repeat constructor; lia.
Qed.

(** The number [response_time] of an event found by
    [event.get('response_time', 0)] is the one [event['response_time']]
    reads when it is positive. *)
Lemma positive_response_time_present (event : gmap string pyval) (rt : Q) :
  as_num (get event "response_time" (PyInt 0)) = Ok rt ->
  (0 < rt)%Q ->
  getitem event "response_time" ≫= as_num = Ok rt.
Proof.
  unfold get, getitem. destruct (event !! "response_time") as [v|]; simpl.
  - intros H _. exact H.
  - intros H Hpos. injection H as <-. discriminate Hpos.
Qed.

Lemma add_event_inv (hash : string -> Z) (self self' : APISynthesizer)
    (event : gmap string pyval) :
  add_event hash self event = Ok self' ->
  exists status scale rt p b d v,
    event !! "status" = Some (PyInt status) /\
    _status_to_scale status = Ok scale /\
    as_num (get event "response_time" (PyInt 0)) = Ok rt /\
    ((0 < rt)%Q /\ _response_time_to_pitch rt = Ok p \/
     (rt <= 0)%Q /\
       exists path, event !! "path" = Some (PyStr path) /\
                    _path_to_note hash path scale = Ok p) /\
    as_int (get event "bytes" (PyInt 0)) = Ok b /\
    self' = mkSynth (base_tempo self)
              (addNote (midi self) (_status_to_track status) (_status_to_track status)
                 p (current_time self) d v)
              (current_time self + 0.5)%Q (event_count self + 1).
Proof.
  unfold add_event, getitem. intros H.
  destruct (event !! "status") as [[status| |]|] eqn:Es; simpl in H; try discriminate.
  destruct (_status_to_scale status) as [scale|] eqn:Esc; simpl in H; try discriminate.
  destruct (as_num (get event "response_time" (PyInt 0))) as [rt|] eqn:Ert;
    simpl in H; try discriminate.
  destruct (Qlt_bool 0 rt) eqn:Epos.
  - apply Qlt_bool_true in Epos.
    pose proof (positive_response_time_present event rt Ert Epos) as Hrt.
    unfold getitem in Hrt. rewrite Hrt in H. simpl in H.
    destruct (_response_time_to_pitch rt) as [p|] eqn:Ep; simpl in H; try discriminate.
    destruct (as_int (get event "bytes" (PyInt 0))) as [b|] eqn:Eb;
      simpl in H; try discriminate.
    injection H as <-.
    eexists status, scale, rt, p, b, _, _.
    repeat (split; [reflexivity || eassumption |]).
    split; [left; split; [exact Epos | exact Ep] |].
    split; reflexivity.
  - apply Qlt_bool_false in Epos.
    destruct (event !! "path") as [[| |path]|] eqn:Ep; simpl in H; try discriminate.
    destruct (_path_to_note hash path scale) as [p|] eqn:Epn;
      simpl in H; try discriminate.
    destruct (as_int (get event "bytes" (PyInt 0))) as [b|] eqn:Eb;
      simpl in H; try discriminate.
    injection H as <-.
    eexists status, scale, rt, p, b, _, _.
    repeat (split; [reflexivity || eassumption |]).
    split; [right; split; [exact Epos | exists path; split; [reflexivity | exact Epn]] |].
    split; reflexivity.
Qed.

Lemma add_event_ok (hash : string -> Z) (self : APISynthesizer)
    (event : gmap string pyval) (status : Z) (rt : Q) (p b : Z) :
  event !! "status" = Some (PyInt status) ->
  as_num (get event "response_time" (PyInt 0)) = Ok rt ->
  ((0 < rt)%Q /\ _response_time_to_pitch rt = Ok p \/
   (rt <= 0)%Q /\
     exists path scale, event !! "path" = Some (PyStr path) /\
                        _status_to_scale status = Ok scale /\
                        _path_to_note hash path scale = Ok p) ->
  as_int (get event "bytes" (PyInt 0)) = Ok b ->
  exists d v,
    add_event hash self event =
      Ok (mkSynth (base_tempo self)
            (addNote (midi self) (_status_to_track status) (_status_to_track status)
               p (current_time self) d v)
            (current_time self + 0.5)%Q (event_count self + 1)).
Proof.
  intros Es Ert Hp Eb. unfold add_event, getitem.
  rewrite Es. simpl.
  destruct (status_to_scale_ok status) as (scale & Esc & _). rewrite Esc. simpl.
  rewrite Ert. simpl.
  destruct Hp as [[Hpos Ep] | (Hle & path & scale' & Ep & Esc' & Epn)].
  - pose proof (positive_response_time_present event rt Ert Hpos) as Hrt.
    unfold getitem in Hrt. apply Qlt_bool_true in Hpos. rewrite Hpos, Hrt. simpl.
    rewrite Ep. simpl. rewrite Eb. simpl. eexists _, _. reflexivity.
  - apply Qlt_bool_false in Hle. rewrite Hle, Ep. simpl.
    assert (scale' = scale) as -> by congruence.
    rewrite Epn. simpl. rewrite Eb. simpl. eexists _, _. reflexivity.
Qed.


(** ** The sequencer clock *)

Lemma add_event_appends (hash : string -> Z) (self self' : APISynthesizer)
    (event : gmap string pyval) :
  add_event hash self event = Ok self' ->
  exists note,
    notes (midi self') = notes (midi self) ++ [note] /\
    time note = current_time self /\
    current_time self' = (current_time self + 0.5)%Q /\
    event_count self' = event_count self + 1 /\
    base_tempo self' = base_tempo self.
Proof.
  intros H. apply add_event_inv in H.
  destruct H as (status & scale & rt & p & b & d & v & _ & _ & _ & _ & _ & ->).
  simpl. eexists. repeat split; reflexivity.
Qed.

Lemma add_events_reachable (hash : string -> Z) (tempo : Z)
    (events : list (gmap string pyval)) (self self' : APISynthesizer) :
  reachable hash tempo self ->
  add_events hash self events = Ok self' ->
  reachable hash tempo self'.
Proof.
  revert self. induction events as [|event rest IH]; simpl; intros self Hr H.
  - injection H as <-. exact Hr.
  - destruct (add_event hash self event) as [self1|] eqn:E; simpl in H; [|discriminate].
    apply (IH self1); [|exact H]. eapply reachable_add_event; eauto.
Qed.

Lemma beat_succ (i : nat) : (beat i + 0.5 == beat (S i))%Q.
Proof.
  unfold beat. rewrite Nat2Z.inj_succ, <- Z.add_1_r, inject_Z_plus. ring.
Qed.

Lemma beat_lt (i j : nat) : (i < j)%nat -> (beat i < beat j)%Q.
Proof.
  intros H. unfold beat. apply Qmult_lt_compat_r; [reflexivity|].
  rewrite <- Zlt_Qlt. lia.
Qed.

Lemma reachable_clock (hash : string -> Z) (tempo : Z) (self : APISynthesizer) :
  reachable hash tempo self ->
  (current_time self == beat (length (notes (midi self))))%Q /\
  event_count self = Z.of_nat (length (notes (midi self))) /\
  base_tempo self = tempo /\
  forall i note, notes (midi self) !! i = Some note -> (time note == beat i)%Q.
Proof.
  induction 1 as [|self event self' _ (IHt & IHc & IHb & IHn) Hadd].
  - repeat split; try reflexivity. intros i note Hi. discriminate Hi.
  - destruct (add_event_appends _ _ _ _ Hadd) as (note & Hn & Ht & Hc & He & Hb).
    rewrite Hn, Hc, He, Hb, length_app. simpl length.
    rewrite Nat.add_1_r. repeat split.
    + rewrite IHt. apply beat_succ.
    + lia.
    + exact IHb.
    + intros i n Hi. apply lookup_snoc_Some in Hi.
      destruct Hi as [[_ Hi] | [-> <-]].
      * apply IHn. exact Hi.
      * rewrite Ht. exact IHt.
Qed.

(** C1: [add_event] gives the new note the clock value it finds and moves
    the clock by the constant 0.5, whatever [base_tempo] is; so in every
    state reached from a fresh synthesizer the start times are strictly
    increasing along the note sequence (and hence non-decreasing): note [i]
    starts at [i] times 0.5. *)
Theorem add_event_clock (hash : string -> Z) (tempo : Z) :
  (forall self event self',
     add_event hash self event = Ok self' ->
     exists note,
       notes (midi self') = notes (midi self) ++ [note] /\
       time note = current_time self /\
       current_time self' = (current_time self + 0.5)%Q) /\
  (forall self,
     reachable hash tempo self ->
     forall i j note_i note_j,
       (i < j)%nat ->
       notes (midi self) !! i = Some note_i ->
       notes (midi self) !! j = Some note_j ->
       (time note_i == beat i)%Q /\
       (time note_i <= time note_j)%Q /\
       (time note_i < time note_j)%Q).
Proof.
  split.
  - intros self event self' H.
    destruct (add_event_appends _ _ _ _ H) as (note & Hn & Ht & Hc & _).
    exists note. auto.
  - intros self Hr i j ni nj Hij Hi Hj.
    destruct (reachable_clock _ _ _ Hr) as (_ & _ & _ & Hn).
    pose proof (Hn i ni Hi) as Ei. pose proof (Hn j nj Hj) as Ej.
    pose proof (beat_lt i j Hij) as Hlt.
    split; [exact Ei|]. rewrite Ei, Ej.
    split; [apply Qlt_le_weak|]; exact Hlt.
Qed.

Lemma add_event_clock_witness :
  (exists self' note,
     add_event sample_hash (__init__ 140) (log_event "GET" "/api/users" 200 1234)
       = Ok self' /\
     notes (midi self') = notes (midi (__init__ 140)) ++ [note] /\
     time note = current_time (__init__ 140) /\
     current_time self' = (current_time (__init__ 140) + 0.5)%Q) /\
  (exists self note_1 note_3,
     add_events sample_hash (__init__ 140) demo_events = Ok self /\
     notes (midi self) !! 1%nat = Some note_1 /\
     notes (midi self) !! 3%nat = Some note_3 /\
     (time note_1 < time note_3)%Q).
Proof.
  split.
  - eexists.
    assert (E : add_event sample_hash (__init__ 140)
                  (log_event "GET" "/api/users" 200 1234) = Ok _)
      by (vm_compute; reflexivity).
    destruct (proj1 (add_event_clock sample_hash 140) _ _ _ E) as (note & H).
    exists note. split; [exact E | exact H].
  - eexists _, _, _.
    split; [vm_compute; reflexivity|].
    split; [reflexivity|]. split; [reflexivity|].
    eapply (proj2 (add_event_clock sample_hash 140)) with (i := 1%nat) (j := 3%nat).
    + apply (add_events_reachable sample_hash 140 demo_events (__init__ 140));
        [apply reachable_init | vm_compute; reflexivity].
    + lia.
    + reflexivity.
    + reflexivity.
Defined.

(** ** The source of the pitch *)




(** ** The range of the pitch *)

Lemma response_time_pitch_range (rt : Q) (p : Z) :
  _response_time_to_pitch rt = Ok p -> 36 <= p <= 84.
Proof.
  intros E. rewrite (response_time_to_pitch_returned rt p E).
  apply returned_pitch_range.
Qed.

Lemma SCALES_degrees :
  map_Forall (fun _ scale => Forall (fun degree => 0 <= degree <= 11) scale) SCALES.
Proof.
  unfold SCALES. simpl.
  repeat apply map_Forall_insert_2; try apply map_Forall_empty;
    repeat constructor; lia.
Qed.

Lemma path_note_range (hash : string -> Z) (status : Z) (scale : list Z)
    (path : string) (p : Z) :
  _status_to_scale status = Ok scale ->
  _path_to_note hash path scale = Ok p ->
  60 <= p <= 71.
Proof.
  intros Esc Epn.
  destruct (status_to_scale_ok status) as (scale' & Esc' & Hlen & Hall).
  assert (scale' = scale) as -> by congruence.
  destruct (path_to_note_degree hash path scale) as (degree & Hin & E).
  { intros ->. discriminate Hlen. }
  rewrite E in Epn. injection Epn as <-.
  rewrite Forall_forall in Hall. specialize (Hall degree Hin). lia.
Qed.

(** C10: every note that [add_event] has emitted has a pitch between 36 and
    84: [_response_time_to_pitch] clamps to that interval, the entries of
    every scale of [SCALES] lie between 0 and 11, and [_path_to_note] on the
    scale of a status therefore returns between 60 and 71. *)
Theorem note_pitch_range (hash : string -> Z) (tempo : Z) :
  (forall rt p, _response_time_to_pitch rt = Ok p -> 36 <= p <= 84) /\
  map_Forall (fun _ scale => Forall (fun degree => 0 <= degree <= 11) scale) SCALES /\
  (forall status scale path p,
     _status_to_scale status = Ok scale ->
     _path_to_note hash path scale = Ok p ->
     60 <= p <= 71) /\
  (forall self,
     reachable hash tempo self ->
     Forall (fun note => 36 <= pitch note <= 84) (notes (midi self))).
Proof.
  split; [exact response_time_pitch_range|].
  split; [exact SCALES_degrees|].
  split; [exact (path_note_range hash)|].
  induction 1 as [|self event self' _ IH Hadd].
  - constructor.
  - apply add_event_inv in Hadd.
    destruct Hadd as (status & scale & rt & p & b & d & v & _ & Esc & _ & Hp & _ & ->).
    simpl. apply Forall_app. split; [exact IH|].
    constructor; [|constructor]. simpl.
    destruct Hp as [[_ Ep] | (_ & path & _ & Epn)].
    + exact (response_time_pitch_range rt p Ep).
    + pose proof (path_note_range hash status scale path p Esc Epn). lia.
Qed.

Lemma note_pitch_range_witness :
  (exists p,
     _path_to_note sample_hash "/api/missing" [0; 2; 3; 5; 6; 8; 9] = Ok p /\
     60 <= p <= 71) /\
  (exists self,
     add_events sample_hash (__init__ 140) demo_events = Ok self /\
     length (notes (midi self)) = 5%nat /\
     Forall (fun note => 36 <= pitch note <= 84) (notes (midi self))).
Proof.
  destruct (note_pitch_range sample_hash 140) as (_ & _ & Hpath & Hreach).
  split.
  - eexists. split; [vm_compute; reflexivity|].
    apply (Hpath 404 [0; 2; 3; 5; 6; 8; 9] "/api/missing"%string); reflexivity.
  - eexists. split; [vm_compute; reflexivity|].
    split; [reflexivity|].
    apply Hreach.
    apply (add_events_reachable sample_hash 140 demo_events (__init__ 140));
      [apply reachable_init | vm_compute; reflexivity].
Defined.

(** ** The round-trip scenario *)

(** C4, as the specification words it, fails on its first note: the response
    time of an event is in seconds, 50 is above one second, and the note
    gets pitch 36, the bottom of the slow band and the pitch of the two
    other notes, not a pitch of the fast band (72 to 84). *)
Lemma scenario_counterexample :
  exists self note_1 note_2,
    add_events sample_hash (__init__ 120) scenario = Ok self /\
    notes (midi self) !! 0%nat = Some note_1 /\
    notes (midi self) !! 1%nat = Some note_2 /\
    pitch note_1 = 36 /\
    pitch note_1 = pitch note_2 /\
    ~ (72 <= pitch note_1 <= 84).
Proof.
  eexists _, _, _.
  split; [vm_compute; reflexivity|].
  split; [reflexivity|]. split; [reflexivity|].
  split; [reflexivity|]. split; [reflexivity|].
  simpl. lia.
Qed.

(** C4 (amended): the three events of the scenario, fed in order to a fresh
    synthesizer, give three notes: the first on the melody track (success)
    with duration 0.25, the second on the bass track (client error) with
    duration 1.0, the third on the drums track (server error) with duration
    0.25; all three have pitch 36, the bottom of the slow band, because the
    response times 50, 600 and 1200 are seconds; [event_count] is 3 and the
    start times 0, 0.5 and 1 increase strictly. *)
Theorem scenario_notes (hash : string -> Z) (tempo : Z) :
  exists self note_1 note_2 note_3,
    add_events hash (__init__ tempo) scenario = Ok self /\
    notes (midi self) = [note_1; note_2; note_3] /\
    track_category (track note_1) = Some success /\
    track_category (track note_2) = Some client_error /\
    track_category (track note_3) = Some server_error /\
    pitch note_1 = 36 /\ pitch note_2 = 36 /\ pitch note_3 = 36 /\
    duration note_1 = 0.25%Q /\
    duration note_2 = 1.0%Q /\
    duration note_3 = 0.25%Q /\
    event_count self = 3 /\
    stats_event_count (get_stats self) = 3 /\
    (time note_1 == 0)%Q /\ (time note_2 == 0.5)%Q /\ (time note_3 == 1)%Q /\
    (time note_1 < time note_2)%Q /\ (time note_2 < time note_3)%Q.
Proof.
  eexists _, _, _, _.
  split; [vm_compute; reflexivity|].
  split; [reflexivity|].
  repeat (split; [reflexivity|]). reflexivity.
Qed.

(** ** Statistics *)

Lemma add_events_length (hash : string -> Z) (events : list (gmap string pyval))
    (self self' : APISynthesizer) :
  add_events hash self events = Ok self' ->
  length (notes (midi self')) = (length (notes (midi self)) + length events)%nat.
Proof.
  revert self. induction events as [|event rest IH]; simpl; intros self H.
  - injection H as <-. lia.
  - destruct (add_event hash self event) as [self1|] eqn:E; simpl in H; [|discriminate].
    rewrite (IH self1 H).
    destruct (add_event_appends _ _ _ _ E) as (note & -> & _).
    rewrite length_app. simpl. lia.
Qed.

(** What [get_stats] reads after a run: the number of calls, the clock
    divided by the constant 2, and the configured tempo. *)
Lemma get_stats_snapshot (hash : string -> Z) (tempo : Z)
    (events : list (gmap string pyval)) (self : APISynthesizer) :
  add_events hash (__init__ tempo) events = Ok self ->
  stats_event_count (get_stats self) = Z.of_nat (length events) /\
  stats_tempo (get_stats self) = tempo /\
  (stats_duration_seconds (get_stats self) == current_time self / 2)%Q /\
  (current_time self == beat (length events))%Q.
Proof.
  intros H.
  pose proof (add_events_length _ _ _ _ H) as Hlen. simpl in Hlen.
  destruct (reachable_clock hash tempo self) as (Ht & Hc & Hb & _).
  { eapply add_events_reachable; [apply reachable_init | exact H]. }
  rewrite Hlen in Ht, Hc. simpl.
  split; [exact Hc|]. split; [exact Hb|]. split; [reflexivity | exact Ht].
Qed.

(** C6 at a tempo other than the default: after the five events of the
    demonstration, on a synthesizer constructed with [base_tempo=140] as the
    [demo] command does, [get_stats] reports 5 events and tempo 140, and as
    duration the clock (2.5 beats) divided by 2, which is 1.25, not the
    clock divided by the 140/60 beats per second of the configured tempo. *)
Theorem get_stats_duration_at_tempo_140 :
  exists self,
    add_events sample_hash (__init__ 140) demo_events = Ok self /\
    stats_event_count (get_stats self) = 5 /\
    stats_tempo (get_stats self) = 140 /\
    (current_time self == 2.5)%Q /\
    (stats_duration_seconds (get_stats self) == 1.25)%Q /\
    ~ (stats_duration_seconds (get_stats self)
         == current_time self / (inject_Z (stats_tempo (get_stats self)) / 60))%Q.
Proof.
  eexists. split; [vm_compute; reflexivity|].
  repeat (split; [reflexivity|]). discriminate.
Qed.

(** ** The envelope *)

Lemma linspace_length (start stop : Q) (num : Z) (ramp : list Q) :
  linspace start stop num = Ok ramp ->
  0 <= num /\ length ramp = Z.to_nat num.
Proof.
  unfold linspace.
  destruct (Z.ltb_spec num 0); [discriminate|].
  destruct (Z.eqb_spec num 1) as [->|_]; intros E; injection E as <-.
  - split; [lia | reflexivity].
  - split; [lia|]. rewrite length_map, length_seqZ. reflexivity.
Qed.

Lemma linspace_ok (start stop : Q) (num : Z) :
  0 <= num -> exists ramp, linspace start stop num = Ok ramp.
Proof.
  intros H. unfold linspace.
  destruct (Z.ltb_spec num 0); [lia|].
  destruct (num =? 1); eexists; reflexivity.
Qed.

Lemma slice_bound_range (len i : Z) : 0 <= len -> 0 <= slice_bound len i <= len.
Proof.
  intros H. unfold slice_bound. destruct (Z.ltb_spec i 0); lia.
Qed.

Lemma setslice_length (a : list Q) (start stop : option Z) (vals a' : list Q) :
  setslice a start stop vals = Ok a' -> length a' = length a.
Proof.
  unfold setslice.
  set (len := Z.of_nat (length a)).
  set (lo := from_option (slice_bound len) 0 start).
  set (hi := from_option (slice_bound len) len stop).
  assert (Hlo : 0 <= lo <= len).
  { subst lo. destruct start; simpl; [apply slice_bound_range|]; lia. }
  assert (Hhi : 0 <= hi <= len).
  { subst hi. destruct stop; simpl; [apply slice_bound_range|]; lia. }
  assert (Hput : forall mid : list Q,
             length mid = Z.to_nat (Z.max (hi - lo) 0) ->
             length (take (Z.to_nat lo) a ++ mid ++
                     drop (Z.to_nat lo + Z.to_nat (Z.max (hi - lo) 0)) a) = length a).
  { intros mid Hmid. rewrite !length_app, length_take, length_drop, Hmid. lia. }
  destruct (decide (length vals = Z.to_nat (Z.max (hi - lo) 0))) as [E|_].
  - intros H. injection H as <-. apply Hput. exact E.
  - destruct vals as [|v [|? ?]]; try discriminate.
    intros H. injection H as <-. apply Hput. apply length_replicate.
Qed.

Lemma setslice_ok (a : list Q) (start stop : option Z) (vals : list Q) :
  length vals = slice_length a start stop ->
  exists a', setslice a start stop vals = Ok a'.
Proof.
  unfold slice_length, setslice. intros E.
  rewrite decide_True by exact E. eexists. reflexivity.
Qed.

Lemma apply_adsr_length (wave : list Q) (attack decay sustain release : Q)
    (out : list Q) :
  apply_adsr wave attack decay sustain release = Ok out ->
  length out = length wave.
Proof.
  unfold apply_adsr. intros H.
  destruct (linspace 0 1 _) as [r1|]; simpl in H; [|discriminate].
  destruct (setslice _ None _ r1) as [e1|] eqn:E1; simpl in H; [|discriminate].
  destruct (linspace 1 sustain _) as [r2|]; simpl in H; [|discriminate].
  destruct (setslice e1 _ _ r2) as [e2|] eqn:E2; simpl in H; [|discriminate].
  destruct (linspace sustain 0 _) as [r3|]; simpl in H; [|discriminate].
  destruct (setslice e2 _ _ r3) as [e3|] eqn:E3; simpl in H; [|discriminate].
  injection H as <-.
  apply setslice_length in E1, E2, E3.
  rewrite length_replicate in E1.
  rewrite length_zip_with. lia.
Qed.

(** Where [apply_adsr] does return: the attack and decay segments fit the
    buffer one after the other, and the release segment has at least one
    sample. *)
Lemma apply_adsr_ok (wave : list Q) (attack decay sustain release : Q) :
  let n := Z.of_nat (length wave) in
  let attack_samples := py_int (attack * inject_Z n) in
  let decay_samples := py_int (decay * inject_Z n) in
  let release_samples := py_int (release * inject_Z n) in
  0 <= attack_samples ->
  0 <= decay_samples ->
  attack_samples + decay_samples <= n ->
  1 <= release_samples <= n ->
  exists out,
    apply_adsr wave attack decay sustain release = Ok out /\
    length out = length wave.
Proof.
  intros n a d r Ha Hd Had Hr.
  assert (Hex : exists out, apply_adsr wave attack decay sustain release = Ok out).
  { unfold apply_adsr. fold n. fold a. fold d. fold r.
    destruct (linspace_ok 0 1 a Ha) as [r1 E1].
    destruct (linspace_ok 1 sustain d Hd) as [r2 E2].
    destruct (linspace_ok sustain 0 r ltac:(lia)) as [r3 E3].
    pose proof (linspace_length _ _ _ _ E1) as [_ L1].
    pose proof (linspace_length _ _ _ _ E2) as [_ L2].
    pose proof (linspace_length _ _ _ _ E3) as [_ L3].
    rewrite E1. simpl.
    destruct (setslice_ok (replicate (Z.to_nat n) 1%Q) None (Some a) r1) as [e1 S1].
    { unfold slice_length. rewrite length_replicate, L1. simpl. unfold slice_bound.
      destruct (Z.ltb_spec a 0); lia. }
    rewrite S1. simpl. rewrite E2. simpl.
    pose proof (setslice_length _ _ _ _ _ S1) as Le1. rewrite length_replicate in Le1.
    destruct (setslice_ok e1 (Some a) (Some (a + d)) r2) as [e2 S2].
    { unfold slice_length. rewrite Le1, L2. simpl. unfold slice_bound.
      destruct (Z.ltb_spec a 0); destruct (Z.ltb_spec (a + d) 0); lia. }
    rewrite S2. simpl. rewrite E3. simpl.
    pose proof (setslice_length _ _ _ _ _ S2) as Le2.
    destruct (setslice_ok e2 (Some (- r)) None r3) as [e3 S3].
    { unfold slice_length. rewrite Le2, Le1, L3. simpl. unfold slice_bound.
      destruct (Z.ltb_spec (- r) 0); lia. }
    rewrite S3. simpl. eexists. reflexivity. }
  destruct Hex as [out E]. exists out. split; [exact E|].
  exact (apply_adsr_length _ _ _ _ _ _ E).
Qed.

(** C5 on buffers the code receives: with the default fractions a note of
    four samples has no release sample, [envelope[-0:]] is then the whole
    buffer and the empty ramp cannot be stored in it; fractions that sum to
    one with no release fail in the same way; an attack and a decay of 0.6
    each overlap the end of a buffer of ten samples and the decay ramp of
    six values cannot be stored in the four samples left. The call raises
    [ValueError] in the three cases. With fractions 0.5, 0.3 and 0.2, which
    also sum to one, it returns a buffer of the length of its input. *)
Theorem apply_adsr_raises :
  apply_adsr_default [1; 1; 1; 1]%Q = Raise ValueError /\
  apply_adsr (replicate 10 1%Q) 0.5 0.5 0.7 0 = Raise ValueError /\
  apply_adsr (replicate 10 1%Q) 0.6 0.6 0.7 0.2 = Raise ValueError /\
  exists out,
    apply_adsr (replicate 10 1%Q) 0.5 0.3 0.7 0.2 = Ok out /\
    length out = 10%nat.
Proof.
  repeat (split; [vm_compute; reflexivity|]).
  eexists. split; [vm_compute; reflexivity | reflexivity].
Qed.

(** ** Normalisation to 16-bit samples *)

Lemma py_int_between (q : Q) (lo hi : Z) :
  (inject_Z lo <= q)%Q -> (q <= inject_Z hi)%Q -> lo <= py_int q <= hi.
Proof.
  unfold Qle, py_int. simpl. intros Hlo Hhi.
  rewrite Z.mul_1_r in Hlo, Hhi.
  split.
  - rewrite <- (Z.quot_mul lo (Z.pos (Qden q))) by lia.
    apply Z.quot_le_mono; lia.
  - rewrite <- (Z.quot_mul hi (Z.pos (Qden q))) by lia.
    apply Z.quot_le_mono; lia.
Qed.

Lemma foldl_Qmax_upper (l : list Q) (x : Q) :
  (x <= foldl Qmax x l)%Q /\ Forall (fun y => (y <= foldl Qmax x l)%Q) l.
Proof.
  revert x. induction l as [|y l IH]; intros x; simpl.
  - split; [apply Qle_refl | constructor].
  - destruct (IH (Qmax x y)) as [H1 H2]. split; [|constructor].
    + eapply Qle_trans; [apply Q.le_max_l | exact H1].
    + eapply Qle_trans; [apply Q.le_max_r | exact H1].
    + exact H2.
Qed.

Lemma np_max_upper (a : list Q) (m : Q) :
  np_max a = Ok m -> Forall (fun y => (y <= m)%Q) a.
Proof.
  destruct a as [|x rest]; simpl; [discriminate|].
  intros H. injection H as <-.
  destruct (foldl_Qmax_upper rest x) as [H1 H2]. constructor; assumption.
Qed.

Lemma audible_peak (audio : list Q) :
  audible audio ->
  exists peak,
    np_max (map Qabs audio) = Ok peak /\
    (0 < peak)%Q /\
    Forall (fun x => (Qabs x <= peak)%Q) audio.
Proof.
  intros Haud.
  destruct audio as [|x0 rest]; [inversion Haud|].
  eexists. split; [reflexivity|].
  pose proof (np_max_upper (map Qabs (x0 :: rest)) _ eq_refl) as Hup.
  rewrite Forall_map in Hup. split; [|exact Hup].
  unfold audible in Haud. rewrite Exists_exists in Haud.
  destruct Haud as (x & Hin & Hx).
  rewrite Forall_forall in Hup. specialize (Hup x Hin). simpl in Hup.
  eapply Qlt_le_trans; [|exact Hup].
  destruct (Qlt_le_dec 0 (Qabs x)) as [Hpos|Hle]; [exact Hpos|].
  exfalso. apply Hx.
  destruct (proj1 (Qabs_Qle_condition x 0) Hle) as [H1 H2].
  apply Qle_antisym; [exact H2 | exact H1].
Qed.

Lemma normalized_sample (x peak : Q) :
  (0 < peak)%Q -> (Qabs x <= peak)%Q ->
  np_int16 (np_multiply (np_divide x peak) 32767)
    = Some (py_int (x / peak * 32767)) /\
  -32767 <= py_int (x / peak * 32767) <= 32767.
Proof.
  intros Hpos Habs.
  apply Qabs_Qle_condition in Habs. destruct Habs as [Hlo Hhi].
  assert (Hr : -32767 <= py_int (x / peak * 32767) <= 32767).
  { apply py_int_between.
    - change (inject_Z (-32767)) with ((- (1)) * 32767)%Q.
      apply Qmult_le_compat_r; [|discriminate].
      apply Qle_shift_div_l; [exact Hpos|].
      assert (E : (- (1) * peak == - peak)%Q) by ring.
      rewrite E. exact Hlo.
    - change (inject_Z 32767) with (1 * 32767)%Q.
      apply Qmult_le_compat_r; [|discriminate].
      apply Qle_shift_div_r; [exact Hpos|].
      rewrite Qmult_1_l. exact Hhi. }
  split; [|exact Hr].
  unfold np_divide.
  destruct (Qeq_bool peak 0) eqn:E.
  - apply Qeq_bool_eq in E. rewrite E in Hpos. discriminate Hpos.
  - simpl.
    destruct (Z.leb_spec (-32768) (py_int (x / peak * 32767))); [|lia].
    destruct (Z.leb_spec (py_int (x / peak * 32767)) 32767); [|lia].
    reflexivity.
Qed.





(** * Further properties of the synthesizer *)

(** ** The note of one event *)

Lemma add_event_note (hash : string -> Z) (self self' : APISynthesizer)
    (event : gmap string pyval) :
  add_event hash self event = Ok self' ->
  exists status rt p b,
    event !! "status" = Some (PyInt status) /\
    as_num (get event "response_time" (PyInt 0)) = Ok rt /\
    as_int (get event "bytes" (PyInt 0)) = Ok b /\
    ((0 < rt)%Q /\ _response_time_to_pitch rt = Ok p \/
     (rt <= 0)%Q /\
       exists path scale, event !! "path" = Some (PyStr path) /\
                          _status_to_scale status = Ok scale /\
                          _path_to_note hash path scale = Ok p) /\
    self' = mkSynth (base_tempo self)
              (addNote (midi self) (_status_to_track status) (_status_to_track status)
                 p (current_time self) (note_duration b) (note_velocity status))
              (current_time self + 0.5)%Q (event_count self + 1).
Proof.
  unfold add_event, getitem. intros H.
  destruct (event !! "status") as [[status| |]|] eqn:Es; simpl in H; try discriminate.
  destruct (_status_to_scale status) as [scale|] eqn:Esc; simpl in H; try discriminate.
  destruct (as_num (get event "response_time" (PyInt 0))) as [rt|] eqn:Ert;
    simpl in H; try discriminate.
  exists status, rt.
  destruct (Qlt_bool 0 rt) eqn:Epos.
  - apply Qlt_bool_true in Epos.
    pose proof (positive_response_time_present event rt Ert Epos) as Hrt.
    unfold getitem in Hrt. rewrite Hrt in H. simpl in H.
    destruct (_response_time_to_pitch rt) as [p|] eqn:Ep; simpl in H; try discriminate.
    destruct (as_int (get event "bytes" (PyInt 0))) as [b|] eqn:Eb;
      simpl in H; try discriminate.
    injection H as <-.
    exists p, b.
    split; [reflexivity|]. split; [reflexivity|]. split; [reflexivity|].
    split; [left; split; [exact Epos | reflexivity] | reflexivity].
  - apply Qlt_bool_false in Epos.
    destruct (event !! "path") as [[| |path]|] eqn:Ep; simpl in H; try discriminate.
    destruct (_path_to_note hash path scale) as [p|] eqn:Epn;
      simpl in H; try discriminate.
    destruct (as_int (get event "bytes" (PyInt 0))) as [b|] eqn:Eb;
      simpl in H; try discriminate.
    injection H as <-.
    exists p, b.
    split; [reflexivity|]. split; [reflexivity|]. split; [reflexivity|].
    split; [|reflexivity].
    right. split; [exact Epos|]. exists path, scale. auto.
Qed.

Lemma status_to_track_range (status : Z) : 0 <= _status_to_track status <= 3.
Proof.
  unfold _status_to_track, MELODY_TRACK, HARMONY_TRACK, BASS_TRACK, DRUMS_TRACK.
  repeat match goal with |- context [if ?c then _ else _] => destruct c end; lia.
Qed.

Lemma note_duration_cases (b : Z) :
  note_duration b = 0.25%Q \/ note_duration b = 0.5%Q \/ note_duration b = 1.0%Q.
Proof.
  unfold note_duration.
  destruct (b <? 1000); [auto|]. destruct (b <? 10000); auto.
Qed.

Lemma note_velocity_cases (status : Z) :
  note_velocity status = 60 \/ note_velocity status = 80 \/
  note_velocity status = 100 \/ note_velocity status = 120.
Proof.
  unfold note_velocity.
  destruct (status <? 300); [auto|]. destruct (status <? 400); [auto|].
  destruct (status <? 500); auto.
Qed.

Lemma beat_nonneg (i : nat) : (0 <= beat i)%Q.
Proof.
  unfold beat. apply Qmult_le_0_compat; [|discriminate].
  change 0%Q with (inject_Z 0). rewrite <- Zle_Qle. lia.
Qed.

(** The constructor gives each of the four tracks its tempo and its
    program, and no call of [add_event] touches them: in every reachable
    state the file has four tracks, the tempo of each is the configured one,
    set at time 0, and the programs are 1, 4, 33 and 118. *)
Theorem constructor_tracks_kept (hash : string -> Z) (tempo : Z) (self : APISynthesizer) :
  reachable hash tempo self ->
  base_tempo self = tempo /\
  numTracks (midi self) = 4 /\
  tempos (midi self) = [(0, 0%Q, tempo); (1, 0%Q, tempo); (2, 0%Q, tempo); (3, 0%Q, tempo)] /\
  programs (midi self) = [(0, 0, 0%Q, 1); (1, 1, 0%Q, 4); (2, 2, 0%Q, 33); (3, 3, 0%Q, 118)].
Proof.
  induction 1 as [|self event self' _ IH Hadd].
  - repeat split; reflexivity.
  - apply add_event_note in Hadd.
    destruct Hadd as (status & rt & p & b & _ & _ & _ & _ & ->). simpl. exact IH.
Qed.

Lemma constructor_tracks_kept_witness :
  exists self,
    add_events sample_hash (__init__ 140) demo_events = Ok self /\
    base_tempo self = 140 /\
    numTracks (midi self) = 4 /\
    tempos (midi self) = [(0, 0%Q, 140); (1, 0%Q, 140); (2, 0%Q, 140); (3, 0%Q, 140)] /\
    programs (midi self) = [(0, 0, 0%Q, 1); (1, 1, 0%Q, 4); (2, 2, 0%Q, 33); (3, 3, 0%Q, 118)].
Proof.
  eexists. split; [vm_compute; reflexivity|].
  apply (constructor_tracks_kept sample_hash 140).
  apply (add_events_reachable sample_hash 140 demo_events (__init__ 140));
    [apply reachable_init | vm_compute; reflexivity].
Defined.

(** Every note that [add_event] has put in the file is a well-formed MIDI
    note of one of the four tracks: its channel is its track, between 0 and
    3, its velocity is 60, 80, 100 or 120, its duration 0.25, 0.5 or 1.0
    beats, and its start time is not negative. *)
Theorem emitted_notes_well_formed (hash : string -> Z) (tempo : Z) (self : APISynthesizer) :
  reachable hash tempo self ->
  Forall (fun note =>
            channel note = track note /\
            0 <= track note < numTracks (midi self) /\
            (volume note = 60 \/ volume note = 80 \/
             volume note = 100 \/ volume note = 120) /\
            (duration note = 0.25%Q \/ duration note = 0.5%Q \/
             duration note = 1.0%Q) /\
            (0 <= time note)%Q)
         (notes (midi self)).
Proof.
  intros Hr. apply Forall_lookup. intros i note Hi.
  destruct (reachable_clock hash tempo self Hr) as (_ & _ & _ & Htime).
  assert (Ht : (0 <= time note)%Q).
  { rewrite (Htime i note Hi). apply beat_nonneg. }
  assert (Hn : numTracks (midi self) = 4).
  { clear Hi Htime Ht. induction Hr as [|self event self' _ IH Hadd]; [reflexivity|].
    apply add_event_note in Hadd.
    destruct Hadd as (status & rt & p & b & _ & _ & _ & _ & ->). exact IH. }
  rewrite Hn. clear Htime Hn. revert i note Hi Ht.
  induction Hr as [|self event self' _ IH Hadd]; intros i note Hi Ht.
  - discriminate Hi.
  - apply add_event_note in Hadd.
    destruct Hadd as (status & rt & p & b & _ & _ & _ & _ & ->).
    simpl in Hi. apply lookup_snoc_Some in Hi.
    destruct Hi as [[_ Hi] | [_ <-]]; [exact (IH i note Hi Ht)|].
    simpl. pose proof (status_to_track_range status).
    split; [reflexivity|]. split; [lia|].
    split; [apply note_velocity_cases|].
    split; [apply note_duration_cases | exact Ht].
Qed.

Lemma emitted_notes_well_formed_witness :
  exists self,
    add_events sample_hash (__init__ 140) demo_events = Ok self /\
    length (notes (midi self)) = 5%nat /\
    Forall (fun note =>
              channel note = track note /\
              0 <= track note < numTracks (midi self) /\
              (volume note = 60 \/ volume note = 80 \/
               volume note = 100 \/ volume note = 120) /\
              (duration note = 0.25%Q \/ duration note = 0.5%Q \/
               duration note = 1.0%Q) /\
              (0 <= time note)%Q)
           (notes (midi self)).
Proof.
  eexists. split; [vm_compute; reflexivity|]. split; [reflexivity|].
  apply (emitted_notes_well_formed sample_hash 140).
  apply (add_events_reachable sample_hash 140 demo_events (__init__ 140));
    [apply reachable_init | vm_compute; reflexivity].
Defined.

(** The duration and the velocity of the note of an event. An event
    without a byte count, or with a negative one, gets the short note; the
    thresholds 1000 and 10000 belong to the longer note. The velocity is 80
    below status 300, 60 below 400, 100 below 500 and 120 from 500 on; a
    status below 200 is played on the drums track, the track of the server
    errors, at the velocity of a success. *)
Theorem event_note_duration_velocity (hash : string -> Z) (self self' : APISynthesizer)
    (event : gmap string pyval) :
  add_event hash self event = Ok self' ->
  exists status note,
    event !! "status" = Some (PyInt status) /\
    notes (midi self') = notes (midi self) ++ [note] /\
    track note = _status_to_track status /\
    (event !! "bytes" = None -> duration note = 0.25%Q) /\
    (forall b, event !! "bytes" = Some (PyInt b) ->
       (b < 1000 -> duration note = 0.25%Q) /\
       (1000 <= b < 10000 -> duration note = 0.5%Q) /\
       (10000 <= b -> duration note = 1.0%Q)) /\
    (status < 300 -> volume note = 80) /\
    (300 <= status < 400 -> volume note = 60) /\
    (400 <= status < 500 -> volume note = 100) /\
    (500 <= status -> volume note = 120) /\
    (status < 200 -> track note = DRUMS_TRACK /\ volume note = 80).
Proof.
  intros H. apply add_event_note in H.
  destruct H as (status & rt & p & b & Es & _ & Eb & _ & ->).
  eexists status, _. split; [exact Es|]. split; [reflexivity|]. simpl.
  split; [reflexivity|].
  unfold get in Eb. unfold note_duration, note_velocity, _status_to_track.
  split; [|split].
  - intros Hnone. rewrite Hnone in Eb. simpl in Eb. injection Eb as <-. reflexivity.
  - intros b' Hb. rewrite Hb in Eb. simpl in Eb. injection Eb as <-.
    repeat split; intros;
      repeat match goal with
      | |- context [?x <? ?y] => destruct (Z.ltb_spec x y)
      end; try reflexivity; lia.
  - repeat split; intros;
      repeat match goal with
      | |- context [?x <? ?y] => destruct (Z.ltb_spec x y); simpl
      | |- context [?x <=? ?y] => destruct (Z.leb_spec x y); simpl
      end; try reflexivity; lia.
Qed.

Lemma event_note_duration_velocity_witness :
  exists self' note,
    add_event sample_hash (__init__ 120)
      (<["status" := PyInt 100]> (<["path" := PyStr "/health"]> ∅)) = Ok self' /\
    notes (midi self') = notes (midi (__init__ 120)) ++ [note] /\
    duration note = 0.25%Q /\
    track note = DRUMS_TRACK /\
    volume note = 80.
Proof.
  assert (E : add_event sample_hash (__init__ 120)
                (<["status" := PyInt 100]> (<["path" := PyStr "/health"]> ∅)) = Ok _)
    by (vm_compute; reflexivity).
  destruct (event_note_duration_velocity _ _ _ _ E)
    as (status & note & Es & Hn & _ & Hd & _ & _ & _ & _ & _ & Hlow).
  vm_compute in Es. injection Es as <-.
  eexists _, note. split; [exact E|]. split; [exact Hn|].
  split; [apply Hd; reflexivity|].
  apply Hlow. lia.
Defined.

(** ** When [add_event] returns *)


(** An event without a status is a [KeyError] on ["status"], whatever else
    it holds; an event with an [int] status whose response time is absent,
    zero or negative and which has no path is a [KeyError] on ["path"]. *)
Theorem add_event_missing_key (hash : string -> Z) (self : APISynthesizer)
    (event : gmap string pyval) :
  (event !! "status" = None ->
   add_event hash self event = Raise (KeyError "status")) /\
  (forall status rt,
     event !! "status" = Some (PyInt status) ->
     as_num (get event "response_time" (PyInt 0)) = Ok rt ->
     (rt <= 0)%Q ->
     event !! "path" = None ->
     add_event hash self event = Raise (KeyError "path")).
Proof.
  split.
  - intros Es. unfold add_event, getitem. rewrite Es. reflexivity.
  - intros status rt Es Ert Hle Ep. unfold add_event, getitem.
    rewrite Es. simpl.
    destruct (status_to_scale_ok status) as (scale & Esc & _). rewrite Esc. simpl.
    rewrite Ert. simpl. apply Qlt_bool_false in Hle. rewrite Hle, Ep. reflexivity.
Qed.

Lemma add_event_missing_key_witness :
  add_event sample_hash (__init__ 120) (<["path" := PyStr "/"]> ∅)
    = Raise (KeyError "status") /\
  add_event sample_hash (__init__ 120) (<["status" := PyInt 200]> ∅)
    = Raise (KeyError "path").
Proof.
  split.
  - apply (add_event_missing_key sample_hash (__init__ 120)). reflexivity.
  - apply (proj2 (add_event_missing_key sample_hash (__init__ 120) _) 200 0%Q);
      try reflexivity. discriminate.
Defined.

Lemma add_event_ok_note (hash : string -> Z) (self : APISynthesizer)
    (event : gmap string pyval) (status : Z) (rt : Q) (p b : Z) :
  event !! "status" = Some (PyInt status) ->
  as_num (get event "response_time" (PyInt 0)) = Ok rt ->
  ((0 < rt)%Q /\ _response_time_to_pitch rt = Ok p \/
   (rt <= 0)%Q /\
     exists path scale, event !! "path" = Some (PyStr path) /\
                        _status_to_scale status = Ok scale /\
                        _path_to_note hash path scale = Ok p) ->
  as_int (get event "bytes" (PyInt 0)) = Ok b ->
  add_event hash self event =
    Ok (mkSynth (base_tempo self)
          (addNote (midi self) (_status_to_track status) (_status_to_track status)
             p (current_time self) (note_duration b) (note_velocity status))
          (current_time self + 0.5)%Q (event_count self + 1)).
Proof.
  intros Es Ert Hp Eb.
  destruct (add_event_ok hash self event status rt p b Es Ert Hp Eb) as (d & v & E).
  rewrite E. pose proof E as E'. apply add_event_note in E'.
  destruct E' as (status' & rt' & p' & b' & Es' & _ & Eb' & _ & E').
  assert (status' = status) as -> by congruence.
  assert (b' = b) as -> by congruence.
  unfold addNote in E'. simplify_list_eq. reflexivity.
Qed.

(** The note of an event does not depend on the events before it: from any
    two states the same event gives notes that differ in the start time
    only. *)
Theorem event_note_independent_of_state (hash : string -> Z)
    (self1 self1' self2 : APISynthesizer) (event : gmap string pyval) :
  add_event hash self1 event = Ok self1' ->
  exists self2' note1 note2,
    add_event hash self2 event = Ok self2' /\
    notes (midi self1') = notes (midi self1) ++ [note1] /\
    notes (midi self2') = notes (midi self2) ++ [note2] /\
    track note1 = track note2 /\
    channel note1 = channel note2 /\
    pitch note1 = pitch note2 /\
    duration note1 = duration note2 /\
    volume note1 = volume note2 /\
    time note1 = current_time self1 /\
    time note2 = current_time self2.
Proof.
  intros H. apply add_event_note in H.
  destruct H as (status & rt & p & b & Es & Ert & Eb & Hp & ->).
  pose proof (add_event_ok_note hash self2 event status rt p b Es Ert Hp Eb) as E.
  eexists _, _, _. split; [exact E|]. simpl.
  split; [reflexivity|]. split; [reflexivity|]. simpl.
  repeat split; reflexivity.
Qed.

Lemma event_note_independent_of_state_witness :
  exists self1' self2 self2' note1 note2,
    add_events sample_hash (__init__ 120) demo_events = Ok self2 /\
    add_event sample_hash (__init__ 120) (log_event "GET" "/api/users" 404 2000)
      = Ok self1' /\
    add_event sample_hash self2 (log_event "GET" "/api/users" 404 2000) = Ok self2' /\
    notes (midi self1') = [note1] /\
    notes (midi self2') = notes (midi self2) ++ [note2] /\
    pitch note1 = pitch note2 /\
    duration note1 = duration note2 /\
    volume note1 = volume note2.
Proof.
  assert (E1 : add_event sample_hash (__init__ 120)
                 (log_event "GET" "/api/users" 404 2000) = Ok _)
    by (vm_compute; reflexivity).
  assert (E2 : add_events sample_hash (__init__ 120) demo_events = Ok _)
    by (vm_compute; reflexivity).
  match type of E2 with _ = Ok ?s =>
    destruct (event_note_independent_of_state sample_hash _ _ s _ E1)
      as (self2' & note1 & note2 & E & H1 & H2 & _ & _ & Hp & Hd & Hv & _)
  end.
  eexists _, _, self2', note1, note2.
  split; [exact E2|]. split; [exact E1|]. split; [exact E|].
  split; [exact H1|]. split; [exact H2|]. auto.
Defined.

(** ** Tracks, scales and instruments *)

Lemma get_instrument_default (tr : Z) :
  ~ (0 <= tr <= 3) -> _get_instrument tr = 0.
Proof.
  intros H. unfold _get_instrument. simpl.
  rewrite !lookup_insert_ne by lia. rewrite lookup_empty. reflexivity.
Qed.

(** The track, the scale and the program of a status go together: every
    status is played on a track that the constructor has given a program
    (melody with the major scale and program 1, harmony with minor and 4,
    bass with diminished and 33, drums with chromatic and 118), never on a
    track with the default program 0, which is the program of every other
    track number. *)
Theorem status_track_scale_instrument (status : Z) :
  (_status_to_track status = 0 /\
   _status_to_scale status = Ok [0; 2; 4; 5; 7; 9; 11] /\
   _get_instrument (_status_to_track status) = 1 \/
   _status_to_track status = 1 /\
   _status_to_scale status = Ok [0; 2; 3; 5; 7; 8; 10] /\
   _get_instrument (_status_to_track status) = 4 \/
   _status_to_track status = 2 /\
   _status_to_scale status = Ok [0; 2; 3; 5; 6; 8; 9] /\
   _get_instrument (_status_to_track status) = 33 \/
   _status_to_track status = 3 /\
   _status_to_scale status = Ok [0; 1; 2; 3; 4; 5; 6] /\
   _get_instrument (_status_to_track status) = 118) /\
  (forall tr, ~ (0 <= tr <= 3) -> _get_instrument tr = 0).
Proof.
  split; [|exact get_instrument_default].
  unfold _status_to_track, _status_to_scale.
  destruct ((200 <=? status) && (status <? 300)); [left; repeat split|].
  destruct ((300 <=? status) && (status <? 400)); [right; left; repeat split|].
  destruct ((400 <=? status) && (status <? 500)); [right; right; left; repeat split|].
  right; right; right; repeat split.
Qed.

Lemma status_track_scale_instrument_witness :
  _get_instrument 4 = 0 /\ _get_instrument (-1) = 0.
Proof.
  split; apply (proj2 (status_track_scale_instrument 200)); lia.
Defined.

(** ** Slower is lower *)

(** [_response_time_to_pitch] is slower-is-lower, as its docstring says: a
    longer response time never gets a higher pitch. *)
Theorem response_time_pitch_monotone (rt1 rt2 : Q) (p1 p2 : Z) :
  (rt1 <= rt2)%Q ->
  _response_time_to_pitch rt1 = Ok p1 ->
  _response_time_to_pitch rt2 = Ok p2 ->
  p2 <= p1.
Proof.
  intros H E1 E2.
  rewrite (response_time_to_pitch_returned rt1 p1 E1).
  rewrite (response_time_to_pitch_returned rt2 p2 E2).
  exact (returned_pitch_antitone rt1 rt2 H).
Qed.

Lemma response_time_pitch_monotone_witness :
  _response_time_to_pitch 0.03 = Ok 79 /\
  _response_time_to_pitch 2.5 = Ok 51 /\
  51 <= 79.
Proof.
  split; [reflexivity|]. split; [reflexivity|].
  apply (response_time_pitch_monotone 0.03 2.5 79 51); [discriminate | reflexivity ..].
Defined.

(** From five seconds on the only pitch that [_response_time_to_pitch]
    returns is the lowest, 36, and it returns it up to [10^300] seconds at
    least; for a response time of zero or more it never returns a pitch
    above 82. The notes announced by the comments of the function, 48 to 60
    and 72 to 84, are not its range. *)
Theorem response_time_pitch_saturates (rt : Q) :
  ((5 <= rt)%Q -> forall p, _response_time_to_pitch rt = Ok p -> p = 36) /\
  ((5 <= rt)%Q -> (rt <= inject_Z (10 ^ 300))%Q -> _response_time_to_pitch rt = Ok 36) /\
  ((0 <= rt)%Q -> forall p, _response_time_to_pitch rt = Ok p -> p <= 82).
Proof.
  assert (Hlow : (5 <= rt)%Q -> returned_pitch rt = 36).
  { intros H.
    pose proof (returned_pitch_antitone 5 rt H) as Hm.
    pose proof (returned_pitch_range rt).
    change (returned_pitch 5) with 36 in Hm. lia. }
  split; [|split].
  - intros H p E. rewrite (response_time_to_pitch_returned rt p E). exact (Hlow H).
  - intros H Hhi. rewrite <- (Hlow H).
    apply response_time_to_pitch_ok; [|exact Hhi].
    eapply Qle_trans; [|exact H]. vm_compute. discriminate.
  - intros H p E. rewrite (response_time_to_pitch_returned rt p E).
    pose proof (returned_pitch_antitone 0 rt H) as Hm.
    change (returned_pitch 0) with 82 in Hm. exact Hm.
Qed.

Lemma response_time_pitch_saturates_witness :
  _response_time_to_pitch 50 = Ok 36 /\
  (forall p, _response_time_to_pitch 0.001 = Ok p -> p <= 82) /\
  _response_time_to_pitch 0.001 = Ok 81.
Proof.
  split; [|split].
  - apply (response_time_pitch_saturates 50); [discriminate | vm_compute; discriminate].
  - apply (response_time_pitch_saturates 0.001). discriminate.
  - reflexivity.
Defined.

(** No note in the file is above pitch 82: the response-time branch of
    [add_event] is taken with a positive response time only, and the path
    branch stays below 72. *)
Theorem emitted_pitch_at_most_82 (hash : string -> Z) (tempo : Z) (self : APISynthesizer) :
  reachable hash tempo self ->
  Forall (fun note => 36 <= pitch note <= 82) (notes (midi self)).
Proof.
  induction 1 as [|self event self' _ IH Hadd].
  - constructor.
  - apply add_event_note in Hadd.
    destruct Hadd as (status & rt & p & b & _ & _ & _ & Hp & ->).
    simpl. apply Forall_app. split; [exact IH|].
    constructor; [|constructor]. simpl.
    destruct Hp as [[Hpos Ep] | (_ & path & scale & _ & Esc & Epn)].
    + rewrite (response_time_to_pitch_returned rt p Ep).
      pose proof (returned_pitch_range rt).
      pose proof (returned_pitch_antitone 0 rt (Qlt_le_weak _ _ Hpos)) as Hm.
      change (returned_pitch 0) with 82 in Hm. lia.
    + pose proof (path_note_range hash status scale path p Esc Epn). lia.
Qed.

Lemma emitted_pitch_at_most_82_witness :
  exists self,
    add_events sample_hash (__init__ 120)
      (scenario ++ [<["response_time" := PyFloat 0.001]> (log_event "GET" "/" 200 10)])
      = Ok self /\
    map pitch (notes (midi self)) = [36; 36; 36; 81] /\
    Forall (fun note => 36 <= pitch note <= 82) (notes (midi self)).
Proof.
  eexists. split; [vm_compute; reflexivity|]. split; [reflexivity|].
  apply (emitted_pitch_at_most_82 sample_hash 120).
  apply (add_events_reachable sample_hash 120
           (scenario ++ [<["response_time" := PyFloat 0.001]> (log_event "GET" "/" 200 10)])
           (__init__ 120));
    [apply reachable_init | vm_compute; reflexivity].
Defined.

(** ** Paths and scales *)

(** [_path_to_note] fails on the empty scale only, with the
    [ZeroDivisionError] of the modulo, and never with an index out of
    range; on any other scale, whatever the sign and the size of the hash,
    it returns 60 plus the entry of the scale at the absolute value of the
    hash modulo the length. *)
Theorem path_to_note_total_on_scales (hash : string -> Z) (path : string) (scale : list Z) :
  (scale = [] -> _path_to_note hash path scale = Raise ZeroDivisionError) /\
  (scale <> [] ->
   exists degree,
     scale !! Z.to_nat (Z.abs (hash (split_head "?" path)) mod Z.of_nat (length scale))
       = Some degree /\
     _path_to_note hash path scale = Ok (60 + degree)) /\
  _path_to_note hash path scale <> Raise IndexError.
Proof.
  assert (Hne : scale <> [] ->
    exists degree,
      scale !! Z.to_nat (Z.abs (hash (split_head "?" path)) mod Z.of_nat (length scale))
        = Some degree /\
      _path_to_note hash path scale = Ok (60 + degree)).
  { intros H. unfold _path_to_note.
    destruct (Z.eqb_spec (Z.of_nat (length scale)) 0) as [E|_].
    { destruct scale; [congruence | simpl in E; lia]. }
    destruct (lookup_lt_is_Some_2 scale _
                (scale_index_in_range (hash (split_head "?" path)) scale H)) as [d Hd].
    exists d. split; [exact Hd|]. rewrite Hd. reflexivity. }
  split; [|split].
  - intros ->. reflexivity.
  - exact Hne.
  - destruct scale as [|x scale]; [discriminate|].
    destruct (Hne ltac:(discriminate)) as (d & _ & E). rewrite E. discriminate.
Qed.

Lemma path_to_note_total_on_scales_witness :
  _path_to_note sample_hash "/api/users" [] = Raise ZeroDivisionError /\
  exists degree,
    [0; 4; 7] !! Z.to_nat (Z.abs (sample_hash (split_head "?" "/api/users"))
                           mod Z.of_nat (length [0; 4; 7])) = Some degree /\
    _path_to_note sample_hash "/api/users" [0; 4; 7] = Ok (60 + degree).
Proof.
  split.
  - apply (path_to_note_total_on_scales sample_hash "/api/users" []). reflexivity.
  - apply (path_to_note_total_on_scales sample_hash "/api/users" [0; 4; 7]).
    discriminate.
Defined.

(** What [_path_to_note] hashes: the path splits into the hashed part,
    which has no ["?"], and a rest that is empty or begins with the first
    ["?"] of the path; a path without ["?"] is hashed whole. *)
Theorem hashed_part_of_path (path : string) :
  (exists rest,
     path = split_head "?" path +:+ rest /\
     (rest = ""%string \/ exists query, rest = String "?" query)) /\
  (forall c, c ∈ list_ascii_of_string (split_head "?" path) -> c <> "?"%char) /\
  ((forall c, c ∈ list_ascii_of_string path -> c <> "?"%char) ->
   split_head "?" path = path).
Proof.
  induction path as [|c path (IH1 & IH2 & IH3)]; simpl.
  - split; [exists ""%string; auto|]. split; [|reflexivity].
    intros c Hc. inversion Hc.
  - destruct (Ascii.eqb_spec c "?") as [->|Hc]; simpl.
    + split; [exists (String "?" path); split; [reflexivity | right; eauto]|].
      split; [intros c Hc; inversion Hc|].
      intros H. exfalso. apply (H "?"%char); [left | reflexivity].
    + destruct IH1 as (rest & E & Hrest).
      split; [exists rest; split; [exact (f_equal (String c) E) | exact Hrest]|].
      split.
      * intros c' Hc'. apply elem_of_cons in Hc'.
        destruct Hc' as [-> | Hc']; [exact Hc | exact (IH2 c' Hc')].
      * intros H. f_equal. apply IH3. intros c' Hc'. apply H. right. exact Hc'.
Qed.

Lemma hashed_part_of_path_witness :
  split_head "?" "/api/users" = "/api/users"%string.
Proof.
  apply (hashed_part_of_path "/api/users").
  intros c Hc. simpl in Hc.
  repeat (apply elem_of_cons in Hc; destruct Hc as [-> | Hc]; [discriminate|]).
  inversion Hc.
Defined.

(** ** Statistics and the file *)

(** The statistics agree with the file: in every reachable state
    [get_stats] reports as many events as the file has notes, the
    configured tempo, and a duration of a quarter of a second per event,
    whatever the durations of the notes are. *)
Theorem stats_match_the_file (hash : string -> Z) (tempo : Z) (self : APISynthesizer) :
  reachable hash tempo self ->
  stats_event_count (get_stats self) = Z.of_nat (length (notes (midi self))) /\
  stats_tempo (get_stats self) = tempo /\
  (stats_duration_seconds (get_stats self)
     == inject_Z (stats_event_count (get_stats self)) * 0.25)%Q.
Proof.
  intros Hr. destruct (reachable_clock hash tempo self Hr) as (Ht & Hc & Hb & _).
  simpl. split; [exact Hc|]. split; [exact Hb|].
  rewrite Ht, Hc. unfold beat, Qdiv. change (/ 2)%Q with (1 # 2)%Q. ring.
Qed.

Lemma stats_match_the_file_witness :
  exists self,
    add_events sample_hash (__init__ 140) demo_events = Ok self /\
    stats_event_count (get_stats self) = 5 /\
    stats_tempo (get_stats self) = 140 /\
    (stats_duration_seconds (get_stats self) == 5 * 0.25)%Q.
Proof.
  eexists. split; [vm_compute; reflexivity|].
  destruct (stats_match_the_file sample_hash 140 _
              (add_events_reachable sample_hash 140 demo_events (__init__ 140) _
                 (reachable_init sample_hash 140) eq_refl)) as (Hc & Hb & Hd).
  split; [exact Hc|]. split; [exact Hb | exact Hd].
Defined.

(** ** Events of standard access logs *)

Lemma log_event_accepted (hash : string -> Z) (self : APISynthesizer)
    (method path : string) (status bytes : Z) :
  exists p,
    60 <= p <= 71 /\
    (exists scale, _status_to_scale status = Ok scale /\
                   _path_to_note hash path scale = Ok p) /\
    add_event hash self (log_event method path status bytes) =
      Ok (mkSynth (base_tempo self)
            (addNote (midi self) (_status_to_track status) (_status_to_track status)
               p (current_time self) (note_duration bytes) (note_velocity status))
            (current_time self + 0.5)%Q (event_count self + 1)).
Proof.
  destruct (status_to_scale_ok status) as (scale & Esc & Hlen & _).
  destruct (path_to_note_degree hash path scale) as (degree & _ & Epn).
  { intros ->. discriminate Hlen. }
  exists (60 + degree).
  split; [exact (path_note_range hash status scale path _ Esc Epn)|].
  split; [eauto|].
  apply (add_event_ok_note hash self (log_event method path status bytes)
           status 0.0%Q (60 + degree) bytes); try reflexivity.
  right. split; [discriminate|]. exists path, scale. auto.
Qed.

(** The events that the parser builds from the lines of a standard access
    log (Nginx or Apache format, where the response time is not available
    and set to 0.0) are all accepted by [add_event], and each gets its
    pitch from the path: the run over such a log returns, counts every
    event, and adds one note for each event, in order, whose pitch is what
    [_path_to_note] returns on the path of the event and the scale of its
    status, between 60 and 71. *)
Theorem access_log_run_accepted (hash : string -> Z) (tempo : Z)
    (events : list (gmap string pyval)) :
  Forall (fun event => exists method path status bytes,
            event = log_event method path status bytes) events ->
  exists self,
    add_events hash (__init__ tempo) events = Ok self /\
    event_count self = Z.of_nat (length events) /\
    length (notes (midi self)) = length events /\
    Forall2 (fun event note =>
               exists method path status bytes scale,
                 event = log_event method path status bytes /\
                 _status_to_scale status = Ok scale /\
                 _path_to_note hash path scale = Ok (pitch note) /\
                 60 <= pitch note <= 71)
            events (notes (midi self)).
Proof.
  intros Hall.
  assert (Hgen : forall self0,
    exists self,
      add_events hash self0 events = Ok self /\
      event_count self = event_count self0 + Z.of_nat (length events) /\
      exists new,
        notes (midi self) = notes (midi self0) ++ new /\
        Forall2 (fun event note =>
                   exists method path status bytes scale,
                     event = log_event method path status bytes /\
                     _status_to_scale status = Ok scale /\
                     _path_to_note hash path scale = Ok (pitch note) /\
                     60 <= pitch note <= 71)
                events new).
  { induction Hall as [|event rest (method & path & status & bytes & ->) _ IH];
      intros self0.
    - exists self0. split; [reflexivity|]. split; [simpl; lia|].
      exists []. rewrite app_nil_r. split; [reflexivity | constructor].
    - destruct (log_event_accepted hash self0 method path status bytes)
        as (p & Hp & (scale & Esc & Epn) & E).
      simpl. rewrite E. simpl.
      match goal with |- context [add_events hash ?s rest] =>
        destruct (IH s) as (self & Erun & Hcount & new & Hnotes & Hpitch)
      end.
      exists self. split; [exact Erun|]. simpl in Hcount, Hnotes.
      split; [lia|].
      eexists (_ :: new). split; [rewrite Hnotes, <- app_assoc; reflexivity|].
      constructor; [|exact Hpitch].
      exists method, path, status, bytes, scale. simpl. auto. }
  destruct (Hgen (__init__ tempo)) as (self & Erun & Hcount & new & Hnotes & Hpitch).
  exists self. split; [exact Erun|]. simpl in Hcount, Hnotes.
  split; [lia|]. rewrite Hnotes.
  split; [symmetry; exact (Forall2_length _ _ _ Hpitch) | exact Hpitch].
Qed.

Lemma access_log_run_accepted_witness :
  exists self,
    add_events sample_hash (__init__ 140) demo_events = Ok self /\
    event_count self = 5 /\
    length (notes (midi self)) = 5%nat /\
    Forall2 (fun event note =>
               exists method path status bytes scale,
                 event = log_event method path status bytes /\
                 _status_to_scale status = Ok scale /\
                 _path_to_note sample_hash path scale = Ok (pitch note) /\
                 60 <= pitch note <= 71)
            demo_events (notes (midi self)).
Proof.
  apply (access_log_run_accepted sample_hash 140 demo_events).
  repeat constructor; eexists _, _, _, _; reflexivity.
Defined.

(** ** The [sonify] command and its limit *)

Lemma sonify_loop_window (hash : string -> Z) (limit : option Z)
    (events : list (gmap string pyval)) (synth : APISynthesizer) (count : Z) :
  let window :=
    match limit with
    | None => events
    | Some n => if n =? 0 then events else take (Z.to_nat (Z.max (n - count) 1)) events
    end in
  CLI.sonify_loop hash synth count limit events =
    (synth' ← add_events hash synth window;
     Ok (synth', count + Z.of_nat (length window))).
Proof.
  revert synth count. induction events as [|event rest IH]; intros synth count.
  - destruct limit as [n|]; simpl; [destruct (n =? 0); simpl|];
      rewrite ?take_nil; simpl; rewrite Z.add_0_r; reflexivity.
  - simpl. destruct limit as [n|].
    + destruct (Z.eqb_spec n 0) as [->|Hn]; simpl.
      * destruct (add_event hash synth event) as [synth1|]; simpl; [|reflexivity].
        specialize (IH synth1 (count + 1)). simpl in IH. rewrite IH.
        destruct (add_events hash synth1 rest); simpl; [|reflexivity].
        do 2 f_equal. lia.
      * destruct (Z.to_nat (Z.max (n - count) 1)) as [|k] eqn:Ek; [lia|]. simpl.
        destruct (add_event hash synth event) as [synth1|]; simpl; [|reflexivity].
        destruct (Z.leb_spec n (count + 1)) as [Hle|Hgt].
        -- assert (k = 0%nat) as -> by lia. rewrite take_0. simpl. reflexivity.
        -- specialize (IH synth1 (count + 1)). simpl in IH.
           destruct (Z.eqb_spec n 0) as [|_]; [contradiction|].
           rewrite IH.
           replace (Z.to_nat (Z.max (n - (count + 1)) 1)) with k by lia.
           destruct (add_events hash synth1 (take k rest)); simpl; [|reflexivity].
           do 2 f_equal. lia.
    + simpl.
      destruct (add_event hash synth event) as [synth1|]; simpl; [|reflexivity].
      specialize (IH synth1 (count + 1)). simpl in IH. rewrite IH.
      destruct (add_events hash synth1 rest); simpl; [|reflexivity].
      do 2 f_equal. lia.
Qed.

Lemma sonify_events_within (hash : string -> Z) (events : list (gmap string pyval))
    (tempo : Z) (limit : option Z) :
  CLI.sonify hash events tempo limit =
    (synth ← add_events hash (__init__ tempo) (events_within limit events);
     Ok (get_stats synth)).
Proof.
  unfold CLI.sonify. rewrite sonify_loop_window. unfold events_within.
  destruct limit as [n|]; [rewrite Z.sub_0_r; destruct (n =? 0)|];
    match goal with |- context [add_events hash ?s ?w] =>
      destruct (add_events hash s w); reflexivity
    end.
Qed.

(** What the option [--limit] of [sonify] does: without it, and with the
    limit 0, the whole log is played; with a positive limit, its first
    [limit] events; with a negative limit, the first event only. The
    statistics printed are those of the synthesizer after these events. *)
Theorem sonify_limit (hash : string -> Z) (events : list (gmap string pyval))
    (tempo : Z) :
  let run evs :=
    synth ← add_events hash (__init__ tempo) evs; Ok (get_stats synth) in
  CLI.sonify hash events tempo None = run events /\
  CLI.sonify hash events tempo (Some 0) = run events /\
  (forall n, 0 < n -> CLI.sonify hash events tempo (Some n) = run (take (Z.to_nat n) events)) /\
  (forall n, n < 0 -> CLI.sonify hash events tempo (Some n) = run (take 1 events)).
Proof.
  intros run. subst run. simpl.
  split; [apply sonify_events_within|].
  split; [apply sonify_events_within|].
  split; intros n Hn; rewrite sonify_events_within; unfold events_within;
    destruct (Z.eqb_spec n 0); try lia.
  - replace (Z.to_nat (Z.max n 1)) with (Z.to_nat n) by lia. reflexivity.
  - replace (Z.to_nat (Z.max n 1)) with 1%nat by lia. reflexivity.
Qed.

Lemma sonify_limit_witness :
  CLI.sonify sample_hash demo_events 120 (Some 2)
    = Ok (mkStats 2 (1.00 / 2)%Q 120) /\
  CLI.sonify sample_hash demo_events 120 (Some (-3))
    = Ok (mkStats 1 (0.5 / 2)%Q 120).
Proof.
  destruct (sonify_limit sample_hash demo_events 120) as (_ & _ & Hpos & Hneg).
  split.
  - rewrite (Hpos 2) by lia. vm_compute. reflexivity.
  - rewrite (Hneg (-3)) by lia. vm_compute. reflexivity.
Defined.

(** * Further properties of the waveform backend *)

(** ** Tempo and frequency *)

(** The tempo grows with the request rate without a bound or a clamp: it
    is 60 BPM at rest and, as the comment says, 120 BPM at 10 requests per
    second; more requests never give a slower tempo, and every tempo is
    exceeded. *)
Theorem request_rate_to_tempo_unbounded :
  (request_rate_to_tempo 0 == 60)%Q /\
  (request_rate_to_tempo 10 == 120)%Q /\
  (forall r1 r2, (r1 <= r2)%Q -> (request_rate_to_tempo r1 <= request_rate_to_tempo r2)%Q) /\
  (forall bound, (60 <= bound)%Q ->
     exists rate, (0 <= rate)%Q /\ (bound < request_rate_to_tempo rate)%Q).
Proof.
  unfold request_rate_to_tempo.
  split; [reflexivity|]. split; [reflexivity|]. split.
  - intros r1 r2 H. apply Qplus_le_r. apply Qmult_le_compat_r; [exact H | discriminate].
  - intros bound Hb. exists bound. split.
    + eapply Qle_trans; [|exact Hb]. discriminate.
    + destruct bound as [n d]. unfold Qlt, Qle in *. simpl in *. nia.
Qed.

Lemma request_rate_to_tempo_unbounded_witness :
  (request_rate_to_tempo 10 <= request_rate_to_tempo 1000)%Q /\
  exists rate, (0 <= rate)%Q /\ (300 < request_rate_to_tempo rate)%Q.
Proof.
  destruct request_rate_to_tempo_unbounded as (_ & _ & Hmono & Hbound).
  split; [apply Hmono; discriminate | apply Hbound; discriminate].
Defined.

(** The frequency of a note never rises with the response time, and it is
    one of the three values 523.25, 261.63 and 130.81. *)
Theorem response_frequency_monotone (ms1 ms2 : Q) :
  (ms1 <= ms2 ->
   response_time_to_pitch ms2 <= response_time_to_pitch ms1)%Q /\
  (response_time_to_pitch ms1 = 523.25%Q \/
   response_time_to_pitch ms1 = 261.63%Q \/
   response_time_to_pitch ms1 = 130.81%Q).
Proof.
  unfold response_time_to_pitch. split.
  - intros H.
    destruct (Qlt_bool ms1 100) eqn:A1; destruct (Qlt_bool ms2 100) eqn:A2;
      destruct (Qlt_bool ms1 500) eqn:B1; destruct (Qlt_bool ms2 500) eqn:B2;
      try discriminate;
      repeat match goal with
      | E : Qlt_bool _ _ = true |- _ => apply Qlt_bool_true in E
      | E : Qlt_bool _ _ = false |- _ => apply Qlt_bool_false in E
      end; exfalso;
      solve [ apply (Qlt_not_le _ _ A2); eapply Qle_trans; [exact A1 | exact H]
            | apply (Qlt_not_le _ _ B2); eapply Qle_trans; [exact B1 | exact H] ].
  - destruct (Qlt_bool ms1 100); [auto|]. destruct (Qlt_bool ms1 500); auto.
Qed.

Lemma response_frequency_monotone_witness :
  (response_time_to_pitch 750 <= response_time_to_pitch 99.5)%Q.
Proof.
  apply (response_frequency_monotone 99.5 750). discriminate.
Defined.

(** ** Where the envelope is defined *)

Lemma setslice_returns (a : list Q) (start stop : option Z) (vals : list Q) :
  length vals = slice_length a start stop \/ length vals = 1%nat ->
  exists a', setslice a start stop vals = Ok a' /\ length a' = length a.
Proof.
  intros H.
  assert (Hex : exists a', setslice a start stop vals = Ok a').
  { destruct H as [H|H]; [exact (setslice_ok a start stop vals H)|].
    unfold setslice. destruct (decide _); [eexists; reflexivity|].
    destruct vals as [|v [|? ?]]; try discriminate H. eexists; reflexivity. }
  destruct Hex as [a' E]. exists a'. split; [exact E|].
  exact (setslice_length _ _ _ _ _ E).
Qed.

Lemma setslice_raises (a : list Q) (start stop : option Z) (vals : list Q) :
  length vals <> slice_length a start stop ->
  length vals <> 1%nat ->
  setslice a start stop vals = Raise ValueError.
Proof.
  unfold slice_length, setslice. intros H1 H2.
  rewrite decide_False by exact H1.
  destruct vals as [|v [|? ?]]; try reflexivity. contradiction.
Qed.

Lemma slice_length_head (e : list Q) (n a : Z) :
  Z.of_nat (length e) = n -> 0 <= a <= n ->
  slice_length e None (Some a) = Z.to_nat a.
Proof.
  intros <- H. unfold slice_length, slice_bound. simpl.
  destruct (Z.ltb_spec a 0); lia.
Qed.

Lemma slice_length_middle (e : list Q) (n a d : Z) :
  Z.of_nat (length e) = n -> 0 <= a <= n -> 0 <= d ->
  slice_length e (Some a) (Some (a + d)) = Z.to_nat (Z.min d (n - a)).
Proof.
  intros <- Ha Hd. unfold slice_length, slice_bound. simpl.
  destruct (Z.ltb_spec a 0); destruct (Z.ltb_spec (a + d) 0); lia.
Qed.

Lemma slice_length_tail (e : list Q) (n r : Z) :
  Z.of_nat (length e) = n -> 0 <= r <= n ->
  slice_length e (Some (- r)) None = Z.to_nat (if r =? 0 then n else r).
Proof.
  intros <- Hr. unfold slice_length, slice_bound. simpl.
  destruct (Z.ltb_spec (- r) 0); destruct (Z.eqb_spec r 0); lia.
Qed.

Lemma apply_adsr_unfold (wave : list Q) (attack decay sustain release : Q) :
  let n := Z.of_nat (length wave) in
  apply_adsr wave attack decay sustain release =
    apply_adsr_samples wave (py_int (attack * inject_Z n)) (py_int (decay * inject_Z n))
      sustain (py_int (release * inject_Z n)).
Proof. reflexivity. Qed.

Lemma apply_adsr_samples_cases (wave : list Q) (a d : Z) (sustain : Q) (r : Z) :
  let n := Z.of_nat (length wave) in
  0 <= a <= n -> 0 <= d -> 0 <= r <= n ->
  ((a + d <= n \/ d = 1) /\ (1 <= r \/ n = 0) ->
   exists out,
     apply_adsr_samples wave a d sustain r = Ok out /\
     length out = length wave) /\
  (~ ((a + d <= n \/ d = 1) /\ (1 <= r \/ n = 0)) ->
   apply_adsr_samples wave a d sustain r = Raise ValueError).
Proof.
  intros n Ha Hd Hr.
  destruct (linspace_ok 0 1 a ltac:(lia)) as [r1 E1].
  destruct (linspace_ok 1 sustain d Hd) as [r2 E2].
  destruct (linspace_ok sustain 0 r ltac:(lia)) as [r3 E3].
  pose proof (linspace_length _ _ _ _ E1) as [_ L1].
  pose proof (linspace_length _ _ _ _ E2) as [_ L2].
  pose proof (linspace_length _ _ _ _ E3) as [_ L3].
  assert (L0 : Z.of_nat (length (replicate (Z.to_nat n) 1%Q)) = n)
    by (rewrite length_replicate; lia).
  destruct (setslice_returns (replicate (Z.to_nat n) 1%Q) None (Some a) r1)
    as (e1 & S1 & Le1).
  { left. rewrite (slice_length_head _ n a L0 Ha). exact L1. }
  assert (L1' : Z.of_nat (length e1) = n) by (rewrite Le1; exact L0).
  pose proof (slice_length_middle e1 n a d L1' Ha Hd) as M2.
  assert (Hstart : apply_adsr_samples wave a d sustain r =
            (envelope ← setslice e1 (Some a) (Some (a + d)) r2;
             envelope ← setslice envelope (Some (- r)) None r3;
             Ok (zip_with Qmult wave envelope))).
  { unfold apply_adsr_samples. fold n.
    rewrite E1. simpl. rewrite S1. simpl. rewrite E2. simpl.
    destruct (setslice e1 (Some a) (Some (a + d)) r2); simpl; [|reflexivity].
    rewrite E3. reflexivity. }
  rewrite Hstart. clear Hstart.
  split.
  - intros [H2 H3].
    destruct (setslice_returns e1 (Some a) (Some (a + d)) r2) as (e2 & S2 & Le2).
    { rewrite M2, L2. destruct H2 as [H2|H2]; [left | right]; lia. }
    assert (L2' : Z.of_nat (length e2) = n) by (rewrite Le2; exact L1').
    destruct (setslice_returns e2 (Some (- r)) None r3) as (e3 & S3 & Le3).
    { left. rewrite (slice_length_tail e2 n r L2' Hr), L3.
      destruct (Z.eqb_spec r 0); lia. }
    rewrite S2. simpl. rewrite S3. simpl. eexists. split; [reflexivity|].
    rewrite length_zip_with. lia.
  - intros Hnot.
    destruct (decide (a + d <= n \/ d = 1)) as [H2|H2].
    + destruct (setslice_returns e1 (Some a) (Some (a + d)) r2) as (e2 & S2 & Le2).
      { rewrite M2, L2. destruct H2 as [H2|H2]; [left | right]; lia. }
      assert (L2' : Z.of_nat (length e2) = n) by (rewrite Le2; exact L1').
      rewrite S2. simpl.
      rewrite (setslice_raises e2 (Some (- r)) None r3); [reflexivity | |].
      * rewrite (slice_length_tail e2 n r L2' Hr), L3.
        destruct (Z.eqb_spec r 0); lia.
      * rewrite L3. lia.
    + rewrite (setslice_raises e1 (Some a) (Some (a + d)) r2); [reflexivity | |].
      * rewrite M2, L2. lia.
      * rewrite L2. lia.
Qed.

Lemma apply_adsr_cases (wave : list Q) (attack decay sustain release : Q) :
  let n := Z.of_nat (length wave) in
  let a := py_int (attack * inject_Z n) in
  let d := py_int (decay * inject_Z n) in
  let r := py_int (release * inject_Z n) in
  0 <= a <= n -> 0 <= d -> 0 <= r <= n ->
  ((a + d <= n \/ d = 1) /\ (1 <= r \/ n = 0) ->
   exists out,
     apply_adsr wave attack decay sustain release = Ok out /\
     length out = length wave) /\
  (~ ((a + d <= n \/ d = 1) /\ (1 <= r \/ n = 0)) ->
   apply_adsr wave attack decay sustain release = Raise ValueError).
Proof.
  intros n a d r. rewrite apply_adsr_unfold.
  exact (apply_adsr_samples_cases wave a d sustain r).
Qed.

Lemma fraction_samples (fraction : Q) (n : Z) :
  (0 <= fraction)%Q -> (fraction <= 1)%Q -> 0 <= n ->
  0 <= py_int (fraction * inject_Z n) <= n.
Proof.
  intros H0 H1 Hn. apply py_int_between.
  - apply Qmult_le_0_compat; [exact H0|].
    change 0%Q with (inject_Z 0). rewrite <- Zle_Qle. exact Hn.
  - rewrite <- (Qmult_1_l (inject_Z n)) at 2.
    apply Qmult_le_compat_r; [exact H1|].
    change 0%Q with (inject_Z 0). rewrite <- Zle_Qle. exact Hn.
Qed.

(** Where [apply_adsr] is defined, in terms of the three numbers of samples
    it computes: for fractions between 0 and 1 the attack and the release
    have between 0 and [length] samples and the decay has 0 or more. The
    function then returns a buffer of the length of its input when the
    attack and decay segments fit the buffer one after the other (or the
    decay segment is a single sample) and the release segment has at least
    one sample (or the buffer is empty); in every other case it raises
    [ValueError]. *)
Theorem apply_adsr_returns_iff (wave : list Q) (attack_samples decay_samples : Z)
    (sustain : Q) (release_samples : Z) :
  let n := Z.of_nat (length wave) in
  0 <= attack_samples <= n ->
  0 <= decay_samples ->
  0 <= release_samples <= n ->
  ((attack_samples + decay_samples <= n \/ decay_samples = 1) /\
   (1 <= release_samples \/ n = 0) ->
   exists out,
     apply_adsr_samples wave attack_samples decay_samples sustain release_samples
       = Ok out /\
     length out = length wave) /\
  (~ ((attack_samples + decay_samples <= n \/ decay_samples = 1) /\
      (1 <= release_samples \/ n = 0)) ->
   apply_adsr_samples wave attack_samples decay_samples sustain release_samples
     = Raise ValueError).
Proof.
  exact (apply_adsr_samples_cases wave attack_samples decay_samples sustain release_samples).
Qed.

Lemma apply_adsr_returns_iff_witness :
  (exists out,
     apply_adsr_samples (replicate 10 1%Q) 5 3 0.7 2 = Ok out /\
     length out = 10%nat) /\
  apply_adsr_samples (replicate 10 1%Q) 6 6 0.7 2 = Raise ValueError /\
  apply_adsr_samples (replicate 3 1%Q) 1 0 0.7 0 = Raise ValueError.
Proof.
  split; [|split].
  - apply (apply_adsr_returns_iff (replicate 10 1%Q) 5 3 0.7 2); simpl; lia.
  - apply (apply_adsr_returns_iff (replicate 10 1%Q) 6 6 0.7 2); simpl; lia.
  - apply (apply_adsr_returns_iff (replicate 3 1%Q) 1 0 0.7 0); simpl; lia.
Defined.

Lemma default_samples (n : Z) :
  py_int (0.1 * inject_Z n) = n ÷ 10 /\ py_int (0.2 * inject_Z n) = (2 * n) ÷ 10.
Proof.
  unfold py_int, Qmult, inject_Z. cbn [Qnum Qden].
  change (Z.pos (10 * 1)) with 10. rewrite Z.mul_1_l. split; reflexivity.
Qed.

Lemma adsr_default_cases (wave : list Q) :
  (length wave = 0%nat \/ (5 <= length wave)%nat ->
   exists out, apply_adsr_default wave = Ok out /\ length out = length wave) /\
  ((1 <= length wave <= 4)%nat -> apply_adsr_default wave = Raise ValueError).
Proof.
  unfold apply_adsr_default.
  pose proof (apply_adsr_cases wave 0.1 0.1 0.7 0.2) as H. cbv zeta in H.
  destruct (default_samples (Z.of_nat (length wave))) as [Ea Er].
  rewrite Ea, Er in H.
  assert (Hn : 0 <= Z.of_nat (length wave)) by lia.
  split; intros Hlen; apply H; clear H;
    try (Z.to_euclidean_division_equations; lia).
Qed.

(** With the default fractions, as [generate_note] calls it, [apply_adsr]
    returns a buffer of the length of its input on the empty buffer and on
    every buffer of five samples or more, and raises [ValueError] on every
    buffer of one to four samples. *)
Theorem apply_adsr_default_buffers (wave : list Q) :
  (length wave = 0%nat \/ (5 <= length wave)%nat ->
   exists out, apply_adsr_default wave = Ok out /\ length out = length wave) /\
  ((1 <= length wave <= 4)%nat -> apply_adsr_default wave = Raise ValueError).
Proof. exact (adsr_default_cases wave). Qed.

Lemma apply_adsr_default_buffers_witness :
  (exists out, apply_adsr_default (replicate 5 1%Q) = Ok out /\ length out = 5%nat) /\
  apply_adsr_default (replicate 3 1%Q) = Raise ValueError.
Proof.
  split.
  - apply (apply_adsr_default_buffers (replicate 5 1%Q)). right. simpl. lia.
  - apply (apply_adsr_default_buffers (replicate 3 1%Q)). simpl. lia.
Defined.

(** ** The shape of the envelope *)

Lemma setslice_lookup (a : list Q) (start stop : option Z) (vals a' : list Q) :
  let len := Z.of_nat (length a) in
  let lo := Z.to_nat (from_option (slice_bound len) 0 start) in
  let k := slice_length a start stop in
  setslice a start stop vals = Ok a' ->
  (forall i, (i < lo \/ lo + k <= i)%nat -> a' !! i = a !! i) /\
  (length vals = k -> forall j, (j < k)%nat -> a' !! (lo + j)%nat = vals !! j).
Proof.
  intros len lo k. unfold setslice. fold len.
  assert (Hlo : 0 <= from_option (slice_bound len) 0 start <= len).
  { destruct start; simpl; [apply slice_bound_range|]; lia. }
  assert (Hhi : 0 <= from_option (slice_bound len) len stop <= len).
  { destruct stop; simpl; [apply slice_bound_range|]; lia. }
  assert (Hk : (lo + k <= length a)%nat).
  { subst lo k. unfold slice_length. fold len. lia. }
  assert (Hput : forall mid : list Q,
    length mid = k ->
    (forall i, (i < lo \/ lo + k <= i)%nat ->
       (take lo a ++ mid ++ drop (lo + k) a) !! i = a !! i) /\
    (forall j, (j < k)%nat -> (take lo a ++ mid ++ drop (lo + k) a) !! (lo + j)%nat = mid !! j)).
  { intros mid Hmid.
    assert (Ltake : length (take lo a) = lo) by (rewrite length_take; lia).
    split.
    - intros i [Hi|Hi].
      + rewrite lookup_app_l by lia. apply lookup_take_lt. exact Hi.
      + rewrite lookup_app_r by lia. rewrite lookup_app_r by lia.
        rewrite lookup_drop. f_equal. lia.
    - intros j Hj. rewrite lookup_app_r by lia.
      rewrite lookup_app_l by lia. f_equal. lia. }
  change (Z.to_nat (Z.max (from_option (slice_bound len) len stop
                           - from_option (slice_bound len) 0 start) 0)) with k.
  fold lo.
  destruct (decide (length vals = k)) as [E|NE].
  - intros H. injection H as <-. destruct (Hput vals E) as [H1 H2].
    split; [exact H1 | intros _; exact H2].
  - destruct vals as [|v [|? ?]]; try discriminate.
    intros H. injection H as <-.
    destruct (Hput (replicate k v) (length_replicate _ _)) as [H1 _].
    split; [exact H1 | intros E; contradiction].
Qed.

Lemma apply_adsr_samples_envelope (wave : list Q) (a d : Z) (sustain : Q) (r : Z)
    (out : list Q) :
  let n := Z.of_nat (length wave) in
  apply_adsr_samples wave a d sustain r = Ok out ->
  exists r1 r2 r3 e1 e2 e3,
    linspace 0 1 a = Ok r1 /\
    linspace 1 sustain d = Ok r2 /\
    linspace sustain 0 r = Ok r3 /\
    setslice (replicate (Z.to_nat n) 1%Q) None (Some a) r1 = Ok e1 /\
    setslice e1 (Some a) (Some (a + d)) r2 = Ok e2 /\
    setslice e2 (Some (- r)) None r3 = Ok e3 /\
    length e1 = length wave /\ length e2 = length wave /\ length e3 = length wave /\
    out = zip_with Qmult wave e3.
Proof.
  intros n. unfold apply_adsr_samples. fold n. intros H.
  destruct (linspace 0 1 a) as [r1|]; simpl in H; [|discriminate].
  destruct (setslice _ None _ r1) as [e1|] eqn:E1; simpl in H; [|discriminate].
  destruct (linspace 1 sustain d) as [r2|]; simpl in H; [|discriminate].
  destruct (setslice e1 _ _ r2) as [e2|] eqn:E2; simpl in H; [|discriminate].
  destruct (linspace sustain 0 r) as [r3|]; simpl in H; [|discriminate].
  destruct (setslice e2 _ _ r3) as [e3|] eqn:E3; simpl in H; [|discriminate].
  injection H as <-.
  pose proof (setslice_length _ _ _ _ _ E1) as L1.
  pose proof (setslice_length _ _ _ _ _ E2) as L2.
  pose proof (setslice_length _ _ _ _ _ E3) as L3.
  rewrite length_replicate in L1.
  exists r1, r2, r3, e1, e2, e3.
  repeat (split; [reflexivity || assumption || lia|]). reflexivity.
Qed.

(** Between the end of the decay and the start of the release the envelope
    is 1, the value the buffer of ones starts with, and not the sustain
    level: there a sample of the result is the sample of the input times
    1, whatever [sustain] is. (The numbers of samples are those that
    [apply_adsr] computes from fractions between 0 and 1.) *)
Theorem adsr_sustain_segment_unscaled (wave : list Q)
    (attack_samples decay_samples : Z) (sustain : Q) (release_samples : Z)
    (out : list Q) :
  let n := Z.of_nat (length wave) in
  0 <= attack_samples <= n ->
  0 <= decay_samples ->
  0 <= release_samples <= n ->
  apply_adsr_samples wave attack_samples decay_samples sustain release_samples = Ok out ->
  forall i x,
    attack_samples + decay_samples <= Z.of_nat i < n - release_samples ->
    wave !! i = Some x ->
    out !! i = Some (x * 1)%Q.
Proof.
  intros n. revert attack_samples decay_samples release_samples.
  intros a d r Ha Hd Hr H i x Hi Hx.
  destruct (apply_adsr_samples_envelope _ _ _ _ _ _ H)
    as (r1 & r2 & r3 & e1 & e2 & e3 & _ & _ & E3 & S1 & S2 & S3 & L1 & L2 & L3 & ->).
  fold n in S1.
  assert (L0 : Z.of_nat (length (replicate (Z.to_nat n) 1%Q)) = n)
    by (rewrite length_replicate; lia).
  assert (Hr1' : 1 <= r).
  { destruct (Z.eq_dec r 0) as [R0|]; [|lia]. exfalso.
    pose proof (linspace_length _ _ _ _ E3) as [_ Lr3].
    rewrite (setslice_raises e2 (Some (- r)) None r3) in S3; [discriminate | |].
    - rewrite (slice_length_tail e2 n r ltac:(lia) Hr), Lr3.
      destruct (Z.eqb_spec r 0); lia.
    - rewrite Lr3. lia. }
  destruct (setslice_lookup _ _ _ _ _ S1) as [O1 _].
  destruct (setslice_lookup _ _ _ _ _ S2) as [O2 _].
  destruct (setslice_lookup _ _ _ _ _ S3) as [O3 _].
  rewrite (slice_length_head _ n a L0 Ha) in O1.
  rewrite (slice_length_middle e1 n a d ltac:(lia) Ha ltac:(lia)) in O2.
  rewrite (slice_length_tail e2 n r ltac:(lia) Hr) in O3.
  simpl in O1, O2, O3.
  rewrite lookup_zip_with, Hx. simpl.
  rewrite O3.
  2:{ left. unfold slice_bound. replace (Z.of_nat (length e2)) with n by lia.
      destruct (Z.ltb_spec (- r) 0); lia. }
  rewrite O2.
  2:{ right. unfold slice_bound. replace (Z.of_nat (length e1)) with n by lia.
      destruct (Z.ltb_spec a 0); lia. }
  rewrite O1 by (right; lia).
  rewrite lookup_replicate_2 by lia. reflexivity.
Qed.

Lemma adsr_sustain_segment_unscaled_witness :
  exists out,
    apply_adsr_samples (replicate 10 2%Q) 2 2 0.5 2 = Ok out /\
    out !! 5%nat = Some (2 * 1)%Q.
Proof.
  eexists. assert (E : apply_adsr_samples (replicate 10 2%Q) 2 2 0.5 2 = Ok _)
    by (vm_compute; reflexivity).
  split; [exact E|].
  apply (adsr_sustain_segment_unscaled (replicate 10 2%Q) 2 2 0.5 2 _);
    try exact E; try reflexivity; simpl; lia.
Defined.

Lemma linspace_first (start stop : Q) (num : Z) (ramp : list Q) :
  linspace start stop num = Ok ramp -> 1 <= num ->
  exists e, ramp !! 0%nat = Some e /\ (e == start)%Q.
Proof.
  unfold linspace. intros H Hnum.
  destruct (Z.ltb_spec num 0); [lia|].
  destruct (Z.eqb_spec num 1) as [->|Hne]; injection H as <-.
  - exists start. split; [reflexivity | apply Qeq_refl].
  - eexists. rewrite list_lookup_fmap, lookup_seqZ_lt by lia.
    split; [reflexivity|]. simpl Z.of_nat. rewrite Z.add_0_l. ring.
Qed.

Lemma linspace_last (start stop : Q) (num : Z) (ramp : list Q) :
  linspace start stop num = Ok ramp -> 2 <= num ->
  exists e, ramp !! Z.to_nat (num - 1) = Some e /\ (e == stop)%Q.
Proof.
  unfold linspace. intros H Hnum.
  destruct (Z.ltb_spec num 0); [lia|].
  destruct (Z.eqb_spec num 1) as [->|Hne]; [lia|]. injection H as <-.
  eexists. rewrite list_lookup_fmap, lookup_seqZ_lt by lia.
  split; [reflexivity|].
  rewrite Z2Nat.id by lia. rewrite Z.add_0_l. field.
  intros E. unfold Qeq in E. simpl in E. lia.
Qed.

(** The two ends of the envelope, when the release does not reach back to
    the first sample. The first sample is silenced when the attack segment
    has a sample, and passes unscaled when the attack and decay segments are
    empty; the last sample is silenced when the release segment has two
    samples or more. (The numbers of samples are those that [apply_adsr]
    computes from fractions between 0 and 1.) *)
Theorem adsr_first_and_last_sample (wave : list Q)
    (attack_samples decay_samples : Z) (sustain : Q) (release_samples : Z)
    (out : list Q) :
  let n := Z.of_nat (length wave) in
  0 <= attack_samples <= n ->
  0 <= decay_samples ->
  0 <= release_samples <= n ->
  apply_adsr_samples wave attack_samples decay_samples sustain release_samples = Ok out ->
  release_samples < n ->
  exists x_first x_last y_first y_last,
    wave !! 0%nat = Some x_first /\
    wave !! Z.to_nat (n - 1) = Some x_last /\
    out !! 0%nat = Some y_first /\
    out !! Z.to_nat (n - 1) = Some y_last /\
    (1 <= attack_samples -> (y_first == 0)%Q) /\
    (attack_samples = 0 -> decay_samples = 0 -> y_first = (x_first * 1)%Q) /\
    (2 <= release_samples -> (y_last == 0)%Q).
Proof.
  intros n. revert attack_samples decay_samples release_samples.
  intros a d r Ha Hd Hr H Hrn.
  destruct (apply_adsr_samples_envelope _ _ _ _ _ _ H)
    as (r1 & r2 & r3 & e1 & e2 & e3 & E1 & _ & E3 & S1 & S2 & S3 & L1 & L2 & L3 & ->).
  fold n in S1.
  pose proof (linspace_length _ _ _ _ E1) as [_ Lr1].
  pose proof (linspace_length _ _ _ _ E3) as [_ Lr3].
  assert (L0 : Z.of_nat (length (replicate (Z.to_nat n) 1%Q)) = n)
    by (rewrite length_replicate; lia).
  assert (Hr1' : 1 <= r).
  { destruct (Z.eq_dec r 0) as [R0|]; [|lia]. exfalso.
    rewrite (setslice_raises e2 (Some (- r)) None r3) in S3; [discriminate | |].
    - rewrite (slice_length_tail e2 n r ltac:(lia) Hr), Lr3.
      destruct (Z.eqb_spec r 0); lia.
    - rewrite Lr3. lia. }
  destruct (setslice_lookup _ _ _ _ _ S1) as [O1 I1].
  destruct (setslice_lookup _ _ _ _ _ S2) as [O2 _].
  destruct (setslice_lookup _ _ _ _ _ S3) as [O3 I3].
  pose proof (slice_length_head _ n a L0 Ha) as T1.
  pose proof (slice_length_middle e1 n a d ltac:(lia) Ha ltac:(lia)) as T2.
  pose proof (slice_length_tail e2 n r ltac:(lia) Hr) as T3.
  replace (if r =? 0 then n else r) with r in T3 by (destruct (Z.eqb_spec r 0); lia).
  rewrite T1 in O1, I1. rewrite T2 in O2. rewrite T3 in O3, I3.
  assert (Hlo3 : Z.to_nat (from_option (slice_bound (Z.of_nat (length e2))) 0 (Some (- r)))
                 = Z.to_nat (n - r)).
  { simpl. unfold slice_bound. replace (Z.of_nat (length e2)) with n by lia.
    destruct (Z.ltb_spec (- r) 0); lia. }
  assert (Hlo2 : Z.to_nat (from_option (slice_bound (Z.of_nat (length e1))) 0 (Some a))
                 = Z.to_nat a).
  { simpl. unfold slice_bound. replace (Z.of_nat (length e1)) with n by lia.
    destruct (Z.ltb_spec a 0); lia. }
  rewrite Hlo3 in O3, I3. rewrite Hlo2 in O2. simpl in O1, I1.
  destruct (lookup_lt_is_Some_2 wave 0) as [x0 Hx0]; [lia|].
  destruct (lookup_lt_is_Some_2 wave (Z.to_nat (n - 1))) as [xl Hxl]; [lia|].
  destruct (lookup_lt_is_Some_2 e3 0) as [y0 Hy0]; [lia|].
  destruct (lookup_lt_is_Some_2 e3 (Z.to_nat (n - 1))) as [yl Hyl]; [lia|].
  exists x0, xl, (x0 * y0)%Q, (xl * yl)%Q.
  split; [exact Hx0|]. split; [exact Hxl|].
  split; [rewrite lookup_zip_with, Hx0, Hy0; reflexivity|].
  split; [rewrite lookup_zip_with, Hxl, Hyl; reflexivity|].
  rewrite O3 in Hy0 by (left; lia).
  specialize (I3 Lr3 (Z.to_nat (r - 1)) ltac:(lia)).
  replace (Z.to_nat (n - r) + Z.to_nat (r - 1))%nat with (Z.to_nat (n - 1)) in I3 by lia.
  rewrite I3 in Hyl.
  split; [|split].
  - intros Ha1'. rewrite O2 in Hy0 by (left; lia).
    specialize (I1 Lr1 0%nat ltac:(lia)). simpl in I1. rewrite I1 in Hy0.
    destruct (linspace_first _ _ _ _ E1 Ha1') as (e & He & Heq).
    rewrite He in Hy0. injection Hy0 as <-. rewrite Heq. ring.
  - intros A0 D0. rewrite O2 in Hy0 by (right; lia).
    rewrite O1 in Hy0 by (right; lia).
    rewrite lookup_replicate_2 in Hy0 by lia. injection Hy0 as <-. reflexivity.
  - intros R2. destruct (linspace_last _ _ _ _ E3 R2) as (e & He & Heq).
    rewrite He in Hyl. injection Hyl as <-. rewrite Heq. ring.
Qed.

Lemma adsr_first_and_last_sample_witness :
  (exists out y_first y_last,
     apply_adsr_samples (replicate 10 1%Q) 1 1 0.7 2 = Ok out /\
     out !! 0%nat = Some y_first /\
     out !! 9%nat = Some y_last /\
     (y_first == 0)%Q /\ (y_last == 0)%Q) /\
  (exists out x_first y_first,
     apply_adsr_samples (replicate 6 3%Q) 0 0 0.7 1 = Ok out /\
     out !! 0%nat = Some y_first /\
     y_first = (x_first * 1)%Q /\ x_first = 3%Q).
Proof.
  split.
  - assert (E : apply_adsr_samples (replicate 10 1%Q) 1 1 0.7 2 = Ok _)
      by (vm_compute; reflexivity).
    destruct (adsr_first_and_last_sample (replicate 10 1%Q) 1 1 0.7 2 _
                ltac:(simpl; lia) ltac:(lia) ltac:(simpl; lia) E ltac:(simpl; lia))
      as (x0 & xl & y0 & yl & _ & _ & H0 & Hl & Hfirst & _ & Hlast).
    eexists _, y0, yl. split; [exact E|].
    split; [exact H0|]. split; [exact Hl|].
    split; [apply Hfirst | apply Hlast]; lia.
  - assert (E : apply_adsr_samples (replicate 6 3%Q) 0 0 0.7 1 = Ok _)
      by (vm_compute; reflexivity).
    destruct (adsr_first_and_last_sample (replicate 6 3%Q) 0 0 0.7 1 _
                ltac:(simpl; lia) ltac:(lia) ltac:(simpl; lia) E ltac:(simpl; lia))
      as (x0 & xl & y0 & yl & Hx0 & _ & H0 & _ & _ & Hfirst & _).
    eexists _, x0, y0. split; [exact E|].
    split; [exact H0|]. split; [apply Hfirst; reflexivity|].
    simpl in Hx0. injection Hx0 as <-. reflexivity.
Defined.

(** ** Full scale *)

Lemma Qmax_choice (x y : Q) : Qmax x y = x \/ Qmax x y = y.
Proof.
  unfold Qmax, GenericMinMax.gmax. destruct (x ?= y)%Q; auto.
Qed.

Lemma foldl_Qmax_attained (l : list Q) (x : Q) : foldl Qmax x l ∈ x :: l.
Proof.
  revert x. induction l as [|y l IH]; intros x; simpl.
  - left.
  - specialize (IH (Qmax x y)). apply elem_of_cons in IH.
    destruct IH as [E | Hin].
    + rewrite E. destruct (Qmax_choice x y) as [-> | ->]; [left | right; left].
    + right. right. exact Hin.
Qed.

Lemma np_max_attained (a : list Q) (m : Q) : np_max a = Ok m -> m ∈ a.
Proof.
  destruct a as [|x rest]; simpl; [discriminate|].
  intros H. injection H as <-. apply foldl_Qmax_attained.
Qed.

Lemma py_int_of_integer (q : Q) (z : Z) : (q == inject_Z z)%Q -> py_int q = z.
Proof.
  intros E.
  assert (z <= py_int q <= z); [|lia].
  apply py_int_between; rewrite E; apply Qle_refl.
Qed.

Lemma normalized_sign (x peak : Q) :
  (0 < peak)%Q ->
  ((0 <= x)%Q -> 0 <= py_int (x / peak * 32767)) /\
  ((x <= 0)%Q -> py_int (x / peak * 32767) <= 0).
Proof.
  intros Hpos. split; intros Hx.
  - apply py_int_nonneg. apply Qmult_le_0_compat; [|discriminate].
    apply Qle_shift_div_l; [exact Hpos|]. rewrite Qmult_0_l. exact Hx.
  - change 0 with (py_int 0). apply py_int_monotone.
    setoid_replace 0%Q with (0 * 32767)%Q using relation Qeq by ring.
    apply Qmult_le_compat_r; [|discriminate].
    apply Qle_shift_div_r; [exact Hpos|]. rewrite Qmult_0_l. exact Hx.
Qed.

(** The normalisation uses the full 16-bit scale and keeps the signs: on a
    buffer with a sample that is not zero, the loudest sample becomes
    32767 or -32767, a sample of zero stays zero, and no sample changes
    sign. *)
Theorem save_wav_full_scale (audio : list Q) :
  audible audio ->
  exists out,
    save_wav audio = Ok (SAMPLE_RATE, map Some out) /\
    length out = length audio /\
    (32767 ∈ out \/ -32767 ∈ out) /\
    (forall i x z,
       audio !! i = Some x -> out !! i = Some z ->
       ((0 <= x)%Q -> 0 <= z) /\ ((x <= 0)%Q -> z <= 0) /\ ((x == 0)%Q -> z = 0)).
Proof.
  intros Haud.
  destruct (audible_peak audio Haud) as (peak & Emax & Hpos & Hall).
  exists (map (fun x => py_int (x / peak * 32767)) audio).
  split; [|split; [|split]].
  - unfold save_wav. rewrite Emax. simpl. do 2 f_equal.
    rewrite map_map. apply map_ext_Forall.
    eapply Forall_impl; [exact Hall|]. intros x Hx.
    apply (normalized_sample x peak Hpos Hx).
  - apply length_map.
  - apply np_max_attained in Emax. apply list_elem_of_fmap in Emax.
    destruct Emax as (x & Epeak & Hin).
    destruct (Qlt_le_dec 0 x) as [Hx | Hx].
    + left. apply list_elem_of_fmap. exists x. split; [|exact Hin].
      symmetry. apply py_int_of_integer. rewrite Epeak.
      rewrite (Qabs_pos x (Qlt_le_weak _ _ Hx)). field.
      intros E. rewrite E in Hx. discriminate Hx.
    + right. apply list_elem_of_fmap. exists x. split; [|exact Hin].
      symmetry. apply py_int_of_integer.
      assert (Hne : ~ (x == 0)%Q).
      { intros E. rewrite Epeak, E in Hpos. discriminate Hpos. }
      rewrite Epeak. rewrite (Qabs_neg x Hx). field. exact Hne.
  - intros i x z Hx Hz. rewrite list_lookup_fmap, Hx in Hz. simpl in Hz.
    injection Hz as <-.
    destruct (normalized_sign x peak Hpos) as [Hnn Hnp].
    split; [exact Hnn|]. split; [exact Hnp|].
    intros E.
    assert (0 <= py_int (x / peak * 32767)) by (apply Hnn; rewrite E; apply Qle_refl).
    assert (py_int (x / peak * 32767) <= 0) by (apply Hnp; rewrite E; apply Qle_refl).
    lia.
Qed.

Lemma save_wav_full_scale_witness :
  exists out,
    save_wav [0.5; -0.25; 0]%Q = Ok (SAMPLE_RATE, map Some out) /\
    length out = 3%nat /\
    (32767 ∈ out \/ -32767 ∈ out).
Proof.
  destruct (save_wav_full_scale [0.5; -0.25; 0]%Q) as (out & E & Hlen & Hfull & _).
  { apply Exists_cons_hd. discriminate. }
  exists out. split; [exact E|]. split; [exact Hlen | exact Hfull].
Defined.

(** ** Notes and the rendered file *)

Section WithNumpy.

Variable np_sin : Q -> Q.
Variable np_pi : Q.
Variable rng : Type.
Variable normal : rng -> Q -> Q -> Z -> list Q * rng.

(** [np.random.normal] returns as many samples as it is asked for. *)
Hypothesis normal_size :
  forall g loc scale size, 0 <= size -> length (normal g loc scale size).1 = Z.to_nat size.

Lemma generate_sine_wave_unfold (freq duration amplitude : Q) :
  Waveform.generate_sine_wave np_sin np_pi freq duration amplitude =
    (num ← note_samples duration;
     t ← linspace 0 duration num;
     Ok (map (fun ti => (amplitude * np_sin (2 * np_pi * freq * ti))%Q) t)).
Proof. reflexivity. Qed.

Lemma generate_sine_wave_cases (freq duration amplitude : Q) :
  (forall n, note_samples duration = Ok n ->
     (0 <= n ->
      exists wave,
        Waveform.generate_sine_wave np_sin np_pi freq duration amplitude = Ok wave /\
        length wave = Z.to_nat n) /\
     (n < 0 ->
      Waveform.generate_sine_wave np_sin np_pi freq duration amplitude
        = Raise ValueError)) /\
  (forall e, note_samples duration = Raise e ->
     Waveform.generate_sine_wave np_sin np_pi freq duration amplitude = Raise e).
Proof.
  rewrite generate_sine_wave_unfold. split.
  - intros n En. rewrite En. cbn [mbind result_bind]. split; intros Hn.
    + destruct (linspace_ok 0 duration n Hn) as [t Et].
      rewrite Et. cbn [mbind result_bind]. eexists. split; [reflexivity|].
      rewrite length_map. exact (proj2 (linspace_length _ _ _ _ Et)).
    + unfold linspace. destruct (Z.ltb_spec n 0); [reflexivity | lia].
  - intros e En. rewrite En. reflexivity.
Qed.

Lemma np_add_same_length (a b : list Q) :
  length a = length b ->
  exists sum, np_add a b = Ok sum /\ length sum = length a.
Proof.
  intros H. unfold np_add. rewrite decide_True by exact H.
  eexists. split; [reflexivity|]. rewrite length_zip_with. lia.
Qed.

Lemma generate_note_cases (g : rng) (status_code : Z) (response_time duration : Q) :
  (forall n, note_samples duration = Ok n ->
     (n = 0 \/ 5 <= n ->
      exists note g',
        Waveform.generate_note np_sin np_pi rng normal g status_code response_time duration
          = Ok (note, g') /\
        length note = Z.to_nat n) /\
     (n < 0 \/ 1 <= n <= 4 ->
      Waveform.generate_note np_sin np_pi rng normal g status_code response_time duration
        = Raise ValueError)) /\
  (forall e, note_samples duration = Raise e ->
     Waveform.generate_note np_sin np_pi rng normal g status_code response_time duration
       = Raise e).
Proof.
  unfold Waveform.generate_note.
  set (freq := response_time_to_pitch response_time).
  set (instrument := status_code_to_instrument status_code).
  split.
  2:{ intros e En.
      repeat match goal with
      | |- context [decide ?P] => destruct (decide P)
      end;
      match goal with
      | |- context [Waveform.generate_sine_wave np_sin np_pi ?f ?d ?a] =>
          rewrite (proj2 (generate_sine_wave_cases f d a) e En)
      end; reflexivity. }
  intros n En.
  destruct (Z.lt_ge_cases n 0) as [Hneg | Hnn].
  { split; [lia|]. intros _.
    repeat match goal with
    | |- context [decide ?P] => destruct (decide P)
    end;
    match goal with
    | |- context [Waveform.generate_sine_wave np_sin np_pi ?f ?d ?a] =>
        rewrite (proj2 (proj1 (generate_sine_wave_cases f d a) n En) Hneg)
    end; reflexivity. }
  assert (Hwave : exists wave g',
    (if decide (instrument = "major_melody"%string) then
       wave ← Waveform.generate_sine_wave np_sin np_pi freq duration 0.5; Ok (wave, g)
     else if decide (instrument = "minor_stab"%string) then
       wave ← Waveform.generate_sine_wave np_sin np_pi (freq * 0.8) duration 0.7;
       Ok (wave, g)
     else if decide (instrument = "alarm"%string) then
       wave ← Waveform.generate_sine_wave np_sin np_pi freq duration 0.8;
       let '(noise, g') := normal g 0 0.2 (Z.of_nat (length wave)) in
       wave ← np_add wave noise;
       Ok (wave, g')
     else
       wave ← Waveform.generate_sine_wave np_sin np_pi freq duration 0.3; Ok (wave, g))
    = Ok (wave, g') /\ length wave = Z.to_nat n).
  { repeat match goal with
    | |- context [decide ?P] => destruct (decide P)
    end;
    match goal with
    | |- context [Waveform.generate_sine_wave np_sin np_pi ?f ?d ?a] =>
        destruct (proj1 (proj1 (generate_sine_wave_cases f d a) n En) Hnn)
          as (wave & Ew & Lw);
        rewrite Ew
    end; cbn [mbind result_bind];
    try (eexists _, _; split; [reflexivity | exact Lw]).
    pose proof (normal_size g 0 0.2 (Z.of_nat (length wave)) ltac:(lia)) as Hsize.
    destruct (normal g 0 0.2 (Z.of_nat (length wave))) as [noise g'].
    cbn [fst] in Hsize.
    destruct (np_add_same_length wave noise ltac:(lia)) as (sum & Esum & Lsum).
    rewrite Esum. cbn [mbind result_bind].
    eexists _, _. split; [reflexivity | lia]. }
  destruct Hwave as (wave & g' & Ew & Lw). rewrite Ew. cbn [mbind result_bind].
  split.
  - intros Hlen.
    destruct (proj1 (adsr_default_cases wave)) as (out & Eout & Lout); [lia|].
    rewrite Eout. cbn [mbind result_bind]. eexists _, _.
    split; [reflexivity | lia].
  - intros Hlen. rewrite (proj2 (adsr_default_cases wave)) by lia. reflexivity.
Qed.

End WithNumpy.

Section Rendering.

Variable np_sin : Q -> Q.
Variable np_pi : Q.
Variable rng : Type.
Variable normal : rng -> Q -> Q -> Z -> list Q * rng.

Hypothesis normal_size :
  forall g loc scale size, 0 <= size -> length (normal g loc scale size).1 = Z.to_nat size.

Local Abbreviation generate_note := (Waveform.generate_note np_sin np_pi rng normal).
Local Abbreviation audio_segments := (Waveform.audio_segments np_sin np_pi rng normal).
Local Abbreviation full_audio := (Waveform.full_audio np_sin np_pi rng normal).
Local Abbreviation main := (Waveform.main np_sin np_pi rng normal).

(** The log entries whose status, when present, is an [int] and whose
    response time, when present, is a number. *)
Local Abbreviation well_typed logs :=
  (Forall (fun log : gmap string pyval =>
             (exists status, as_int (get log "status" (PyInt 200)) = Ok status) /\
             (exists rt, as_num (get log "response_time_ms" (PyInt 100)) = Ok rt))
          logs).

(** A note has [int(sample_rate * duration)] samples, whatever the status
    and the response time are, when that number is 0 or at least 5; when it
    is between 1 and 4 the default envelope fails and [generate_note] raises
    [ValueError], as it does for a negative duration; when the product is
    an infinity it raises the [OverflowError] of [int]. The product is the
    float product: half a second has 22050 samples, 0.3 s has 13230 and
    0.7 s has 30869. *)
Theorem generate_note_length (g : rng) (status_code : Z) (response_time duration : Q) :
  (forall n, note_samples duration = Ok n ->
     (n = 0 \/ 5 <= n ->
      exists note g',
        generate_note g status_code response_time duration = Ok (note, g') /\
        length note = Z.to_nat n) /\
     (n < 0 \/ 1 <= n <= 4 ->
      generate_note g status_code response_time duration = Raise ValueError)) /\
  (forall e, note_samples duration = Raise e ->
     generate_note g status_code response_time duration = Raise e) /\
  note_samples 0.5 = Ok 22050 /\
  note_samples 0.3 = Ok 13230 /\
  note_samples 0.7 = Ok 30869.
Proof.
  destruct (generate_note_cases np_sin np_pi rng normal normal_size
              g status_code response_time duration) as [H1 H2].
  split; [exact H1|]. split; [exact H2|].
  repeat split; vm_compute; reflexivity.
Qed.

Lemma silence_samples :
  int_of_float (binary64 (inject_Z SAMPLE_RATE * binary64 0.1)) = Ok 4410.
Proof. vm_compute. reflexivity. Qed.

Lemma audio_segments_cons (g : rng) (log : gmap string pyval)
    (rest : list (gmap string pyval)) (duration : Q) :
  audio_segments g (log :: rest) duration =
    (status ← as_int (get log "status" (PyInt 200));
     response_time ← as_num (get log "response_time_ms" (PyInt 100));
     '(note, g) ← generate_note g status response_time duration;
     num ← int_of_float (binary64 (inject_Z SAMPLE_RATE * binary64 0.1));
     silence ← np_zeros num;
     '(more, g) ← audio_segments g rest duration;
     Ok (note :: silence :: more, g)).
Proof. reflexivity. Qed.

Lemma audio_segments_ok (logs : list (gmap string pyval)) (duration : Q) (n : Z) :
  note_samples duration = Ok n ->
  n = 0 \/ 5 <= n ->
  well_typed logs ->
  forall g, exists segments g',
    audio_segments g logs duration = Ok (segments, g') /\
    length segments = (2 * length logs)%nat /\
    Z.of_nat (length (concat segments)) = Z.of_nat (length logs) * (n + 4410) /\
    (n = 0 -> concat segments = replicate (length logs * Z.to_nat 4410) 0%Q).
Proof.
  intros En Hn Hall.
  induction Hall as [|log rest [[status Es] [rt Ert]] _ IH]; intros g.
  - exists [], g. repeat split.
  - rewrite audio_segments_cons, Es, Ert. cbn [mbind result_bind].
    destruct (proj1 (proj1 (generate_note_cases np_sin np_pi rng normal normal_size
                              g status rt duration) n En) Hn)
      as (note & g1 & Enote & Ln).
    rewrite Enote. cbn [mbind result_bind]. rewrite silence_samples.
    cbn [mbind result_bind].
    change (np_zeros 4410) with (Ok (replicate (Z.to_nat 4410) 0%Q)).
    cbn [mbind result_bind].
    destruct (IH g1) as (more & g2 & Em & Lm & Lc & Hz).
    rewrite Em. cbn [mbind result_bind].
    exists (note :: replicate (Z.to_nat 4410) 0%Q :: more), g2.
    split; [reflexivity|].
    split; [cbn [length]; lia|].
    split.
    + cbn [concat length]. rewrite !length_app, length_replicate, Ln. lia.
    + intros Hzero. cbn [concat length]. rewrite (Hz Hzero).
      assert (note = []) as -> by (destruct note; [reflexivity | simpl in Ln; lia]).
      cbn [app]. rewrite <- replicate_add. f_equal.
Qed.

(** The length of the rendered audio: for a file with at least one entry
    and a duration that gives notes of 0 or at least 5 samples, [main]
    concatenates, for each entry, the note and 4410 samples of silence; for
    a file without entries [np.concatenate] raises [ValueError], and so does
    the first note when it has 1 to 4 samples or the duration is negative;
    a duration whose product with the sample rate is an infinity is the
    [OverflowError] of the first note. *)
Theorem full_audio_length (g : rng) (logs : list (gmap string pyval)) (duration : Q) :
  full_audio g [] duration = Raise ValueError /\
  (logs <> [] -> well_typed logs ->
   forall n, note_samples duration = Ok n ->
     (n = 0 \/ 5 <= n ->
      exists audio,
        full_audio g logs duration = Ok audio /\
        Z.of_nat (length audio) = Z.of_nat (length logs) * (n + 4410)) /\
     (n < 0 \/ 1 <= n <= 4 ->
      full_audio g logs duration = Raise ValueError /\
      main g logs duration = Raise ValueError)) /\
  (logs <> [] -> well_typed logs ->
   forall e, note_samples duration = Raise e ->
     full_audio g logs duration = Raise e /\
     main g logs duration = Raise e).
Proof.
  assert (Hfirst : forall e,
    logs <> [] -> well_typed logs ->
    (forall status rt, generate_note g status rt duration = Raise e) ->
    full_audio g logs duration = Raise e /\ main g logs duration = Raise e).
  { intros e Hne Hall Hraise.
    assert (E : audio_segments g logs duration = Raise e).
    { destruct logs as [|log rest]; [contradiction|].
      inversion Hall as [|? ? [[status Es] [rt Ert]] _]; subst.
      rewrite audio_segments_cons, Es, Ert. cbn [mbind result_bind].
      rewrite Hraise. reflexivity. }
    unfold Waveform.main, Waveform.full_audio. rewrite E. split; reflexivity. }
  split; [reflexivity|]. split.
  - intros Hne Hall n En. split.
    + intros Hn.
      destruct (audio_segments_ok logs duration n En Hn Hall g)
        as (segments & g' & E & Ls & Lc & _).
      unfold Waveform.full_audio. rewrite E. cbn [mbind result_bind].
      destruct segments as [|s segments].
      { destruct logs; [contradiction | simpl in Ls; lia]. }
      exists (concat (s :: segments)). split; [reflexivity | exact Lc].
    + intros Hn. apply (Hfirst ValueError Hne Hall). intros status rt.
      exact (proj2 (proj1 (generate_note_cases np_sin np_pi rng normal normal_size
                             g status rt duration) n En) Hn).
  - intros Hne Hall e En. apply (Hfirst e Hne Hall). intros status rt.
    exact (proj2 (generate_note_cases np_sin np_pi rng normal normal_size
                    g status rt duration) e En).
Qed.

Lemma silent_buffer_quotients (m : nat) :
  Forall (fun x => np_divide x 0 = np_nan) (replicate m 0%Q).
Proof. apply Forall_replicate. reflexivity. Qed.

Lemma silent_buffer_samples (m : nat) :
  map (fun x => np_int16 (np_multiply (np_divide x 0) 32767)) (replicate m 0%Q)
    = replicate m (Some 0).
Proof.
  induction m as [|m IH]; [reflexivity|].
  cbn [replicate map]. rewrite IH. reflexivity.
Qed.

Lemma silent_buffer_peak (m : nat) :
  np_max (map Qabs (replicate (S m) 0%Q)) = Ok 0%Q.
Proof.
  cbn [replicate map np_max]. f_equal.
  induction m as [|m IH]; [reflexivity|].
  cbn [replicate map foldl]. exact IH.
Qed.

(** With the duration 0 every note is empty and the rendered audio is
    silence only; [main] then runs the normalisation of [save_wav] on a
    buffer whose maximum is zero: every quotient is [nan], and the samples
    handed on are the zeros that [nan] is cast to. *)
Theorem main_zero_duration (g : rng) (logs : list (gmap string pyval)) :
  logs <> [] -> well_typed logs ->
  let silence := replicate (length logs * Z.to_nat 4410) 0%Q in
  full_audio g logs 0 = Ok silence /\
  np_max (map Qabs silence) = Ok 0%Q /\
  Forall (fun x => np_divide x 0 = np_nan) silence /\
  main g logs 0 = Ok (SAMPLE_RATE, replicate (length logs * Z.to_nat 4410) (Some 0)).
Proof.
  intros Hne Hall silence. subst silence.
  assert (E0 : note_samples 0 = Ok 0) by (vm_compute; reflexivity).
  destruct (audio_segments_ok logs 0 0 E0 (or_introl eq_refl) Hall g)
    as (segments & g' & E & Ls & _ & Hz).
  specialize (Hz eq_refl).
  assert (Efull : full_audio g logs 0 = Ok (replicate (length logs * Z.to_nat 4410) 0%Q)).
  { unfold Waveform.full_audio. rewrite E. cbn [mbind result_bind].
    destruct segments as [|s segments].
    { destruct logs; [contradiction | simpl in Ls; lia]. }
    unfold np_concatenate. rewrite Hz. reflexivity. }
  split; [exact Efull|].
  unfold Waveform.main. rewrite Efull. cbn [mbind result_bind].
  destruct (length logs * Z.to_nat 4410)%nat as [|m] eqn:Em.
  { destruct logs; [contradiction | simpl in Em; lia]. }
  split; [apply silent_buffer_peak|].
  split; [apply silent_buffer_quotients|].
  unfold save_wav. rewrite silent_buffer_peak. cbn [mbind result_bind].
  rewrite silent_buffer_samples. reflexivity.
Qed.

End Rendering.

Lemma sample_normal_size (g : Z) (loc scale : Q) (size : Z) :
  0 <= size -> length (sample_normal g loc scale size).1 = Z.to_nat size.
Proof.
  intros _. unfold sample_normal. cbn [fst].
  rewrite length_map, length_seqZ. reflexivity.
Qed.

Lemma generate_note_length_witness :
  (exists note g',
     Waveform.generate_note sample_sin 3.14 Z sample_normal 7 500 250 0.3
       = Ok (note, g') /\
     length note = Z.to_nat 13230) /\
  Waveform.generate_note sample_sin 3.14 Z sample_normal 7 200 50 0.0001
    = Raise ValueError /\
  Waveform.generate_note sample_sin 3.14 Z sample_normal 7 200 50 (inject_Z (10 ^ 308))
    = Raise OverflowError.
Proof.
  split; [|split].
  - destruct (generate_note_length sample_sin 3.14 Z sample_normal sample_normal_size
                7 500 250 0.3) as (H & _).
    destruct (H 13230 ltac:(vm_compute; reflexivity)) as [Hok _].
    apply Hok. right. lia.
  - destruct (generate_note_length sample_sin 3.14 Z sample_normal sample_normal_size
                7 200 50 0.0001) as (H & _).
    destruct (H 4 ltac:(vm_compute; reflexivity)) as [_ Hraise].
    apply Hraise. right. lia.
  - destruct (generate_note_length sample_sin 3.14 Z sample_normal sample_normal_size
                7 200 50 (inject_Z (10 ^ 308))) as (_ & H & _).
    apply H. vm_compute. reflexivity.
Defined.

Lemma full_audio_length_witness :
  exists audio,
    Waveform.full_audio sample_sin 3.14 Z sample_normal 7
      [json_log 200 50; json_log 500 700] 0.5 = Ok audio /\
    Z.of_nat (length audio) = 2 * (22050 + 4410).
Proof.
  destruct (full_audio_length sample_sin 3.14 Z sample_normal sample_normal_size 7
              [json_log 200 50; json_log 500 700] 0.5) as (_ & H & _).
  destruct (H ltac:(discriminate)
              ltac:(repeat constructor; eexists; reflexivity)
              22050 ltac:(vm_compute; reflexivity)) as [Hok _].
  apply Hok. right. lia.
Defined.

Lemma main_zero_duration_witness :
  Waveform.full_audio sample_sin 3.14 Z sample_normal 7 [json_log 404 120] 0
    = Ok (replicate (1 * Z.to_nat 4410) 0%Q) /\
  Waveform.main sample_sin 3.14 Z sample_normal 7 [json_log 404 120] 0
    = Ok (SAMPLE_RATE, replicate (1 * Z.to_nat 4410) (Some 0)).
Proof.
  destruct (main_zero_duration sample_sin 3.14 Z sample_normal sample_normal_size 7
              [json_log 404 120] ltac:(discriminate)
              ltac:(repeat constructor; eexists; reflexivity))
    as (Hfull & _ & _ & Hmain).
  split; [exact Hfull | exact Hmain].
Defined.

